(** * Order identifiers and the order status workflow

    A shallow embedding of the order service of the transfer management
    system ([lib/db/orders.ts], [lib/utils.ts], [types/index.ts]): the
    monthly counter behind [generateOrderId], [createOrder], [updateOrder]
    and [updateOrderStatus].

    The document store is explicit state ([World]); everything the code
    obtains from outside (the clock, the time zone database, whether a store
    call goes through) is read from an [Env]. Functions that can throw live
    in a small state-and-exception monad. *)

From stdpp Require Import gmap strings stringmap pretty list fin_maps.
From stdpp Require Import sorting.
From Stdlib Require Import ZArith Lia Ascii.

Open Scope string_scope.
Open Scope Z_scope.

(** ** JavaScript strings and numbers *)

(** [Number.prototype.toString()] on an integer. *)
Definition toString (n : Z) : string := pretty n.

(** [String.prototype.slice(start)]: a negative [start] counts from the end. *)
Definition slice (s : string) (start : Z) : string :=
  let len := Z.of_nat (String.length s) in
  let from := if start <? 0 then Z.max (len + start) 0 else Z.min start len in
  String.substring (Z.to_nat from) (Z.to_nat (len - from)) s.

(** [n] characters read cyclically from [padString], starting at [cur]. *)
Fixpoint fill (n : nat) (padString cur : string) : string :=
  match n with
  | O => ""
  | S n' =>
      match cur with
      | String c rest => String c (fill n' padString rest)
      | EmptyString =>
          match padString with
          | String c rest => String c (fill n' padString rest)
          | EmptyString => ""
          end
      end
  end.

(** [String.prototype.padStart(targetLength, padString)]. *)
Definition padStart (s : string) (targetLength : nat) (padString : string) : string :=
  if (targetLength <=? String.length s)%nat then s
  else fill (targetLength - String.length s) padString padString +:+ s.

(** ** Dates

    A time value is a count of milliseconds since the epoch. The calendar
    fields of a time value are those of the proleptic Gregorian calendar,
    which is what the [Date] getters compute. *)

Definition msPerDay : Z := 86400000.

Record CivilDate := { civ_year : Z; civ_month : Z (* 1..12 *); civ_day : Z }.

(** Calendar date of the day numbered [days] from 1970-01-01. *)
Definition civil_from_days (days : Z) : CivilDate :=
  let z := days + 719468 in
  let era := z / 146097 in
  let doe := z - era * 146097 in
  let yoe := (doe - doe / 1460 + doe / 36524 - doe / 146096) / 365 in
  let y := yoe + era * 400 in
  let doy := doe - (365 * yoe + yoe / 4 - yoe / 100) in
  let mp := (5 * doy + 2) / 153 in
  let d := doy - (153 * mp + 2) / 5 + 1 in
  let m := if mp <? 10 then mp + 3 else mp - 9 in
  {| civ_year := if m <=? 2 then y + 1 else y; civ_month := m; civ_day := d |}.

(** Day number of a calendar date, the inverse direction; used to write
    instants down as dates. *)
Definition days_from_civil (y m d : Z) : Z :=
  let y' := if m <=? 2 then y - 1 else y in
  let era := y' / 400 in
  let yoe := y' - era * 400 in
  let mp := if m <=? 2 then m + 9 else m - 3 in
  let doy := (153 * mp + 2) / 5 + d - 1 in
  let doe := yoe * 365 + yoe / 4 - yoe / 100 + doy in
  era * 146097 + doe - 719468.

(** The instant [y]-[m]-[d]T[hh]:[mm] UTC as a time value. *)
Definition utc_instant (y m d hh mm : Z) : Z :=
  days_from_civil y m d * msPerDay + hh * 3600000 + mm * 60000.

(** A [Date] object is modelled by the time value that its local getters
    ([getFullYear], [getMonth]) read. *)
Record Date := { localTime : Z }.

Definition getFullYear (d : Date) : Z := civ_year (civil_from_days (localTime d / msPerDay)).
(** [getMonth] is zero-based. *)
Definition getMonth (d : Date) : Z := civ_month (civil_from_days (localTime d / msPerDay)) - 1.

(** ** The environment of a call *)

Record Env := {
  (** what [new Date()] returns: the current instant, in ms since the epoch *)
  newDate : Z;
  (** what [Timestamp.now()] returns *)
  timestampNow : Z;
  (** the time zone database consulted by date-fns-tz: the offset from UTC,
      in ms, of a named zone at an instant *)
  tzOffset : string -> Z -> Z;
  (** [Some e] when the counter transaction cannot commit and throws [e] *)
  txError : option string;
  (** [Some e] when [addDoc] throws [e] *)
  addDocError : option string;
  (** [Some e] when [updateDoc] throws [e] *)
  updateDocError : option string;
  (** [Some e] when [getDoc] throws [e] *)
  getDocError : option string
}.

Definition JORDAN_TIMEZONE : string := "Asia/Amman".

(** date-fns-tz's [utcToZonedTime(date, timeZone)]: a [Date] whose local
    getters read the wall clock of [timeZone] at the instant [date]. *)
Definition utcToZonedTime (env : Env) (date : Z) (timeZone : string) : Date :=
  {| localTime := date + tzOffset env timeZone date |}.

Definition getJordanTime (env : Env) : Date :=
  utcToZonedTime env (newDate env) JORDAN_TIMEZONE.

(** ** Types ([types/index.ts]) *)

Module OrderType.
Inductive t := incoming | outgoing.
End OrderType.

Module OrderStatus.
Inductive t :=
| submitted
| pending_review
| approved
| rejected
| processing
| completed
| cancelled.

#[global] Instance eq_dec : EqDecision t.
Proof. solve_decision. Defined.
End OrderStatus.

Record CliqDetails := {
  aliasName : option string;
  mobileNumber : option string
}.

Record RecipientDetails := {
  name : option string;
  bank : option string;
  accountNumber : option string;
  notes : option string
}.

(** [OrderTimestamps]; a [Date] or Firestore [Timestamp] is its time value,
    and [toDate] is the identity on it. *)
Record OrderTimestamps := {
  created : Z;
  updated : Z;
  completed : option Z;
  approved : option Z;
  rejected : option Z
}.

(** [Omit<Order, 'id' | 'orderId' | 'timestamps'>]. Monetary figures are only
    carried by the functions below, never computed on. *)
Record OrderData := {
  exchangeId : string;
  type : OrderType.t;
  status : OrderStatus.t;
  submittedAmount : Z;
  finalAmount : option Z;
  commission : Z;
  cliqDetails : option CliqDetails;
  recipientDetails : option RecipientDetails;
  bankUsed : option string;
  platformBankUsed : option string;
  screenshots : list string;
  adminNotes : option string;
  rejectionReason : option string;
  senderName : option string
}.

(** [Partial<Omit<Order, 'id' | 'orderId' | 'timestamps'>>]: [None] is a key
    that the object does not have. *)
Module Updates.
Record t := {
  exchangeId : option string;
  type : option OrderType.t;
  status : option OrderStatus.t;
  submittedAmount : option Z;
  finalAmount : option Z;
  commission : option Z;
  cliqDetails : option CliqDetails;
  recipientDetails : option RecipientDetails;
  bankUsed : option string;
  platformBankUsed : option string;
  screenshots : option (list string);
  adminNotes : option string;
  rejectionReason : option string;
  senderName : option string
}.

(** The object literal [{}]. *)
Definition empty : t :=
  {| exchangeId := None; type := None; status := None; submittedAmount := None;
     finalAmount := None; commission := None; cliqDetails := None;
     recipientDetails := None; bankUsed := None; platformBankUsed := None;
     screenshots := None; adminNotes := None; rejectionReason := None;
     senderName := None |}.

(** [updates.status = v] *)
Definition set_status (v : OrderStatus.t) (u : t) : t :=
  {| exchangeId := exchangeId u; type := type u; status := Some v;
     submittedAmount := submittedAmount u; finalAmount := finalAmount u;
     commission := commission u; cliqDetails := cliqDetails u;
     recipientDetails := recipientDetails u; bankUsed := bankUsed u;
     platformBankUsed := platformBankUsed u; screenshots := screenshots u;
     adminNotes := adminNotes u; rejectionReason := rejectionReason u;
     senderName := senderName u |}.

(** [updates.rejectionReason = v] *)
Definition set_rejectionReason (v : string) (u : t) : t :=
  {| exchangeId := exchangeId u; type := type u; status := status u;
     submittedAmount := submittedAmount u; finalAmount := finalAmount u;
     commission := commission u; cliqDetails := cliqDetails u;
     recipientDetails := recipientDetails u; bankUsed := bankUsed u;
     platformBankUsed := platformBankUsed u; screenshots := screenshots u;
     adminNotes := adminNotes u; rejectionReason := Some v;
     senderName := senderName u |}.

(** [updates.adminNotes = v] *)
Definition set_adminNotes (v : string) (u : t) : t :=
  {| exchangeId := exchangeId u; type := type u; status := status u;
     submittedAmount := submittedAmount u; finalAmount := finalAmount u;
     commission := commission u; cliqDetails := cliqDetails u;
     recipientDetails := recipientDetails u; bankUsed := bankUsed u;
     platformBankUsed := platformBankUsed u; screenshots := screenshots u;
     adminNotes := Some v; rejectionReason := rejectionReason u;
     senderName := senderName u |}.
End Updates.

(** A document of the [orders] collection, as [createOrder] writes it:
    [{...orderData, orderId, timestamps}]. *)
Record OrderDoc := {
  fields : OrderData;
  orderId : string;
  timestamps : OrderTimestamps
}.

(** An [Order] as the service returns it: the stored document and the
    identifier that the store assigned to it. *)
Record Order := {
  id : string;
  doc : OrderDoc
}.

(** A document of the [counters] collection. *)
Record CounterDoc := {
  count : Z;
  month : string
}.

Record ApiResponse (T : Type) := {
  success : bool;
  data : option T;
  error : option string;
  message : option string
}.
Arguments success {T} _.
Arguments data {T} _.
Arguments error {T} _.
Arguments message {T} _.

(** ** The document store *)

Definition COLLECTION_NAME : string := "orders".
Definition COUNTERS_COLLECTION : string := "counters".

Record World := {
  counters : gmap string CounterDoc;
  orders : gmap string OrderDoc
}.

Definition emptyWorld : World := {| counters := ∅; orders := ∅ |}.

(** ** Computations that read and write the store and may throw *)

Inductive Result (A : Type) :=
| Ok (a : A)
| Throw (e : string).
Arguments Ok {A} a.
Arguments Throw {A} e.

Definition M (A : Type) : Type := World -> Result A * World.

#[global] Instance M_ret : MRet M := fun A (a : A) w => (Ok a, w).

#[global] Instance M_bind : MBind M := fun A B (k : A -> M B) (m : M A) w =>
  match m w with
  | (Ok a, w') => k a w'
  | (Throw e, w') => (Throw e, w')
  end.

Definition throw {A} (e : string) : M A := fun w => (Throw e, w).

(** [try { body } catch (error) { handler }] *)
Definition try_catch {A} (body : M A) (handler : string -> M A) : M A :=
  fun w =>
    match body w with
    | (Ok a, w') => (Ok a, w')
    | (Throw e, w') => handler e w'
    end.

(** [getErrorMessage]: the message of a thrown [Error]. *)
Definition getErrorMessage (error : string) : string := error.

(** ** Store primitives (Firestore) *)

Definition with_counters (c : gmap string CounterDoc) (w : World) : World :=
  {| counters := c; orders := orders w |}.

Definition with_orders (o : gmap string OrderDoc) (w : World) : World :=
  {| counters := counters w; orders := o |}.

(** [transaction.get(counterRef)]: [None] when [exists()] is false. *)
Definition transaction_get (counterRef : string) : M (option CounterDoc) :=
  fun w => (Ok (counters w !! counterRef), w).

(** [transaction.set(counterRef, d)] *)
Definition transaction_set (counterRef : string) (d : CounterDoc) : M unit :=
  fun w => (Ok (), with_counters (<[counterRef := d]> (counters w)) w).

(** The field transform [increment(n)]. *)
Definition increment (n : Z) : Z -> Z := fun c => c + n.

(** [transaction.update(counterRef, { count: op })]: only the [count] field
    is written; updating a missing document throws. *)
Definition transaction_update_count (counterRef : string) (op : Z -> Z) : M unit :=
  fun w =>
    match counters w !! counterRef with
    | Some d =>
        (Ok (), with_counters
                  (<[counterRef := {| count := op (count d); month := month d |}]> (counters w)) w)
    | None => (Throw "No document to update", w)
    end.

(** [runTransaction(db, body)]: all of [body]'s writes are committed, or the
    call throws and none is. *)
Definition runTransaction {A} (env : Env) (body : M A) : M A :=
  fun w =>
    match txError env with
    | Some e => (Throw e, w)
    | None =>
        match body w with
        | (Ok a, w') => (Ok a, w')
        | (Throw e, _) => (Throw e, w)
        end
    end.

(** [addDoc(collection(db, COLLECTION_NAME), d)]: stores [d] under an
    identifier that no document of the collection has, and returns it. *)
Definition addDoc (env : Env) (d : OrderDoc) : M string :=
  fun w =>
    match addDocError env with
    | Some e => (Throw e, w)
    | None =>
        let newId := fresh_string "doc" (orders w) in
        (Ok newId, with_orders (<[newId := d]> (orders w)) w)
    end.

(** [getDoc(docRef)]: [None] when [exists()] is false. *)
Definition getDoc (env : Env) (docRef : string) : M (option OrderDoc) :=
  fun w =>
    match getDocError env with
    | Some e => (Throw e, w)
    | None => (Ok (orders w !! docRef), w)
    end.

(** The argument of [updateDoc]: the keys of [updates] and the field paths
    under [timestamps] ([None] is a path that the object does not have). *)
Record UpdateData := {
  ud_updates : Updates.t;
  ud_timestamps_updated : option Z;     (* 'timestamps.updated' *)
  ud_timestamps_approved : option Z;    (* 'timestamps.approved' *)
  ud_timestamps_rejected : option Z;    (* 'timestamps.rejected' *)
  ud_timestamps_completed : option Z    (* 'timestamps.completed' *)
}.

(** Writing one key: the new value if the key is given, the old one if not. *)
Definition put {A} (new : option A) (old : A) : A :=
  match new with Some v => v | None => old end.

(** The same for an optional field of the document. *)
Definition put_opt {A} (new : option A) (old : option A) : option A :=
  match new with Some v => Some v | None => old end.

(** The keys of [r] written over the fields [f]. *)
Definition mergeFields (r : Updates.t) (f : OrderData) : OrderData :=
  {| exchangeId := put (Updates.exchangeId r) (exchangeId f);
     type := put (Updates.type r) (type f);
     status := put (Updates.status r) (status f);
     submittedAmount := put (Updates.submittedAmount r) (submittedAmount f);
     finalAmount := put_opt (Updates.finalAmount r) (finalAmount f);
     commission := put (Updates.commission r) (commission f);
     cliqDetails := put_opt (Updates.cliqDetails r) (cliqDetails f);
     recipientDetails := put_opt (Updates.recipientDetails r) (recipientDetails f);
     bankUsed := put_opt (Updates.bankUsed r) (bankUsed f);
     platformBankUsed := put_opt (Updates.platformBankUsed r) (platformBankUsed f);
     screenshots := put (Updates.screenshots r) (screenshots f);
     adminNotes := put_opt (Updates.adminNotes r) (adminNotes f);
     rejectionReason := put_opt (Updates.rejectionReason r) (rejectionReason f);
     senderName := put_opt (Updates.senderName r) (senderName f) |}.

(** What [updateDoc] does to an existing document: every key and field path
    of [u] is written, everything else is kept. *)
Definition merge (u : UpdateData) (d : OrderDoc) : OrderDoc :=
  let t := timestamps d in
  {| fields := mergeFields (ud_updates u) (fields d);
     orderId := orderId d;
     timestamps :=
       {| created := created t;
          updated := put (ud_timestamps_updated u) (updated t);
          completed := put_opt (ud_timestamps_completed u) (completed t);
          approved := put_opt (ud_timestamps_approved u) (approved t);
          rejected := put_opt (ud_timestamps_rejected u) (rejected t) |} |}.

(** [updateDoc(docRef, updateData)]: throws when the document does not
    exist. *)
Definition updateDoc (env : Env) (docRef : string) (updateData : UpdateData) : M unit :=
  fun w =>
    match updateDocError env with
    | Some e => (Throw e, w)
    | None =>
        match orders w !! docRef with
        | Some d => (Ok (), with_orders (<[docRef := merge updateData d]> (orders w)) w)
        | None => (Throw "No document to update", w)
        end
    end.

(** ** [lib/db/orders.ts] *)

(** The month part of the identifier and of the counter key: the last two
    characters of the year, then the month on two characters. *)
Definition yearDigits (now : Date) : string := slice (toString (getFullYear now)) (-2).
Definition monthDigits (now : Date) : string := padStart (toString (getMonth now + 1)) 2 "0".

Definition generateOrderId (env : Env) : M string :=
  let now := getJordanTime env in
  let year := yearDigits now in
  let month := monthDigits now in
  let monthKey := year +:+ month in
  runTransaction env (
    let counterRef := "orders_" +:+ monthKey in
    counterDoc ← transaction_get counterRef;
    currentCount ←
      match counterDoc with
      | Some d =>
          transaction_update_count counterRef (increment 1);;
          mret (count d + 1)
      | None =>
          transaction_set counterRef {| count := 1; month := monthKey |};;
          mret 1
      end;
    let sequence := padStart (toString currentCount) 4 "0" in
    mret ("T" +:+ year +:+ month +:+ sequence)).

Definition createOrder (env : Env) (orderData : OrderData) : M (ApiResponse Order) :=
  try_catch (
    orderId ← generateOrderId env;
    let now := timestampNow env in
    let orderWithMetadata :=
      {| fields := orderData;
         orderId := orderId;
         timestamps := {| created := now; updated := now;
                          completed := None; approved := None; rejected := None |} |} in
    docRef ← addDoc env orderWithMetadata;
    let newOrder := {| id := docRef; doc := orderWithMetadata |} in
    mret {| success := true; data := Some newOrder; error := None;
            message := Some "Order created successfully" |})
  (fun error =>
    mret {| success := false; data := None; error := Some (getErrorMessage error);
            message := Some "Failed to create order" |}).

(** [data] is [Some None] for [data: null]. *)
Definition getOrderById (env : Env) (orderId : string) : M (ApiResponse (option Order)) :=
  try_catch (
    docSnap ← getDoc env orderId;
    match docSnap with
    | Some d =>
        mret {| success := true; data := Some (Some {| id := orderId; doc := d |});
                error := None; message := None |}
    | None =>
        mret {| success := true; data := Some None; error := None;
                message := Some "Order not found" |}
    end)
  (fun error =>
    mret {| success := false; data := None; error := Some (getErrorMessage error);
            message := Some "Failed to fetch order" |}).

(** The [updateData] object that [updateOrder] builds at time [now]:
    [{...updates, 'timestamps.updated': now}], then the [switch] on
    [updates.status]. *)
Definition updateDataOf (now : Z) (updates : Updates.t) : UpdateData :=
  let updateData :=
    {| ud_updates := updates;
       ud_timestamps_updated := Some now;
       ud_timestamps_approved := None;
       ud_timestamps_rejected := None;
       ud_timestamps_completed := None |} in
  match Updates.status updates with
  | Some OrderStatus.approved =>
      {| ud_updates := ud_updates updateData;
         ud_timestamps_updated := ud_timestamps_updated updateData;
         ud_timestamps_approved := Some now;
         ud_timestamps_rejected := ud_timestamps_rejected updateData;
         ud_timestamps_completed := ud_timestamps_completed updateData |}
  | Some OrderStatus.rejected =>
      {| ud_updates := ud_updates updateData;
         ud_timestamps_updated := ud_timestamps_updated updateData;
         ud_timestamps_approved := ud_timestamps_approved updateData;
         ud_timestamps_rejected := Some now;
         ud_timestamps_completed := ud_timestamps_completed updateData |}
  | Some OrderStatus.completed =>
      {| ud_updates := ud_updates updateData;
         ud_timestamps_updated := ud_timestamps_updated updateData;
         ud_timestamps_approved := ud_timestamps_approved updateData;
         ud_timestamps_rejected := ud_timestamps_rejected updateData;
         ud_timestamps_completed := Some now |}
  | _ => updateData
  end.

Definition updateOrder (env : Env) (orderId : string) (updates : Updates.t)
  : M (ApiResponse Order) :=
  try_catch (
    let docRef := orderId in
    let now := timestampNow env in
    let updateData := updateDataOf now updates in
    updateDoc env docRef updateData;;
    result ← getOrderById env orderId;
    match success result, data result with
    | true, Some (Some order) =>
        mret {| success := true; data := Some order; error := None;
                message := Some "Order updated successfully" |}
    | _, _ => throw "Failed to fetch updated order"
    end)
  (fun error =>
    mret {| success := false; data := None; error := Some (getErrorMessage error);
            message := Some "Failed to update order" |}).

(** A string is truthy when it is not empty. *)
Definition truthy (s : string) : bool :=
  match s with
  | EmptyString => false
  | String _ _ => true
  end.

(** [notes] is [None] when the argument is left out ([undefined], falsy). *)
Definition updateOrderStatus (env : Env) (orderId : string) (status : OrderStatus.t)
    (notes : option string) : M (ApiResponse Order) :=
  let updates := Updates.set_status status Updates.empty in
  let updates :=
    match notes with
    | Some n =>
        if truthy n then
          if decide (status = OrderStatus.rejected)
          then Updates.set_rejectionReason n updates
          else Updates.set_adminNotes n updates
        else updates
    | None => updates
    end in
  updateOrder env orderId updates.

(** ** Reading identifiers back *)

(** The value of a decimal digit. *)
Definition digit_of (c : ascii) : option Z :=
  (if decide (c = "0") then Some 0 else if decide (c = "1") then Some 1
   else if decide (c = "2") then Some 2 else if decide (c = "3") then Some 3
   else if decide (c = "4") then Some 4 else if decide (c = "5") then Some 5
   else if decide (c = "6") then Some 6 else if decide (c = "7") then Some 7
   else if decide (c = "8") then Some 8 else if decide (c = "9") then Some 9
   else None)%char.

(** The number that a string of decimal digits denotes, read left to right
    from the value [acc] of the digits already consumed. *)
Fixpoint parse_go (acc : Z) (s : string) : option Z :=
  match s with
  | EmptyString => Some acc
  | String c r =>
      match digit_of c with
      | Some d => parse_go (10 * acc + d) r
      | None => None
      end
  end.

Definition parseDecimal (s : string) : option Z := parse_go 0 s.

(** [n] zeros, the padding of a sequence number. *)
Fixpoint zeros (n : nat) : string :=
  match n with
  | O => ""
  | S n' => String "0" (zeros n')
  end.

(** ** Runs of the allocator *)

(** The month of a call, as the counter key and the identifier carry it. *)
Definition monthKey (env : Env) : string :=
  yearDigits (getJordanTime env) +:+ monthDigits (getJordanTime env).

Definition counterKey (env : Env) : string := "orders_" +:+ monthKey env.

(** The value of a monthly counter; a month without a document counts 0. *)
Definition counterValue (w : World) (key : string) : Z :=
  match counters w !! key with
  | Some d => count d
  | None => 0
  end.

(** The identifier built from a call's month and a sequence number. *)
Definition formatOrderId (env : Env) (sequence : Z) : string :=
  "T" +:+ yearDigits (getJordanTime env) +:+ monthDigits (getJordanTime env)
      +:+ padStart (toString sequence) 4 "0".

(** Sequential calls of [generateOrderId], one per environment, each paired
    with what it returned. *)
Fixpoint allocations (envs : list Env) (w : World) : list (Env * Result string) * World :=
  match envs with
  | [] => ([], w)
  | env :: rest =>
      let r := generateOrderId env w in
      let rs := allocations rest r.2 in
      ((env, r.1) :: rs.1, rs.2)
  end.

(** The identifier of a call, if the call succeeded and fell in month [mk]. *)
Definition allocated_in (mk : string) (r : Env * Result string) : option string :=
  match r.2 with
  | Ok orderId => if decide (monthKey r.1 = mk) then Some orderId else None
  | Throw _ => None
  end.

(** ** Sample environments *)

(** An environment in which every store call goes through, at the instant
    [t], with Asia/Amman three hours ahead of UTC. *)
Definition env_at (t : Z) : Env :=
  {| newDate := t; timestampNow := t; tzOffset := fun _ _ => 3 * 3600000;
     txError := None; addDocError := None; updateDocError := None;
     getDocError := None |}.

(** The same instant with a counter transaction that cannot commit. *)
Definition env_tx_failing (t : Z) (e : string) : Env :=
  {| newDate := t; timestampNow := t; tzOffset := fun _ _ => 3 * 3600000;
     txError := Some e; addDocError := None; updateDocError := None;
     getDocError := None |}.

(** The order of the usage example in [lib/db/README.md], with the status
    left to the caller. *)
Definition sample_order (st : OrderStatus.t) : OrderData :=
  {| exchangeId := "userId"; type := OrderType.outgoing; status := st;
     submittedAmount := 1000; finalAmount := None; commission := 20;
     cliqDetails := Some {| aliasName := None; mobileNumber := Some "00962791234567" |};
     recipientDetails := None; bankUsed := None; platformBankUsed := None;
     screenshots := ["url1"; "url2"]; adminNotes := None; rejectionReason := None;
     senderName := None |}.

(** The document that [createOrder] writes at time [now] under the
    identifier [oid]. *)
Definition createdDoc (od : OrderData) (oid : string) (now : Z) : OrderDoc :=
  {| fields := od; orderId := oid;
     timestamps := {| created := now; updated := now;
                      completed := None; approved := None; rejected := None |} |}.

(** ** Deleting and querying orders ([lib/db/orders.ts]) *)

(** The environment of a call that deletes or queries: whether [deleteDoc]
    and [getDocs] go through. *)
Record QueryEnv := {
  (** [Some e] when [deleteDoc] throws [e] *)
  deleteDocError : option string;
  (** [Some e] when [getDocs] throws [e] (store unreachable, query rejected) *)
  getDocsError : option string
}.

#[global] Instance OrderType_eq_dec : EqDecision OrderType.t.
Proof. solve_decision. Defined.

(** [deleteDoc(docRef)]: deleting a document that does not exist is not an
    error. *)
Definition deleteDoc (qe : QueryEnv) (docRef : string) : M unit :=
  fun w =>
    match deleteDocError qe with
    | Some e => (Throw e, w)
    | None => (Ok (), with_orders (delete docRef (orders w)) w)
    end.

Definition deleteOrder (qe : QueryEnv) (orderId : string) : M (ApiResponse unit) :=
  try_catch (
    let docRef := orderId in
    deleteDoc qe docRef;;
    mret {| success := true; data := None; error := None;
            message := Some "Order deleted successfully" |})
  (fun error =>
    mret {| success := false; data := None; error := Some (getErrorMessage error);
            message := Some "Failed to delete order" |}).

(** The query constraints that the service builds. *)
Inductive QueryConstraint :=
| where_status_in (values : list OrderStatus.t)   (* where('status', 'in', values) *)
| where_type_in (values : list OrderType.t)       (* where('type', 'in', values) *)
| where_exchangeId_eq (value : string)            (* where('exchangeId', '==', value) *)
| where_orderId_eq (value : string)               (* where('orderId', '==', value) *)
| orderBy_created_desc                            (* orderBy('timestamps.created', 'desc') *)
| limit (n : nat).                                (* limit(n) *)

(** Whether a document passes one constraint; ordering and limit let every
    document through. *)
Definition passes (c : QueryConstraint) (d : OrderDoc) : bool :=
  match c with
  | where_status_in values => bool_decide (status (fields d) ∈ values)
  | where_type_in values => bool_decide (type (fields d) ∈ values)
  | where_exchangeId_eq value => bool_decide (exchangeId (fields d) = value)
  | where_orderId_eq value => bool_decide (orderId d = value)
  | orderBy_created_desc => true
  | limit _ => true
  end.

Definition is_orderBy (c : QueryConstraint) : bool :=
  match c with orderBy_created_desc => true | _ => false end.

(** The limit of a query, if it has one. *)
Fixpoint limit_of (cs : list QueryConstraint) : option nat :=
  match cs with
  | [] => None
  | limit n :: _ => Some n
  | _ :: rest => limit_of rest
  end.

(** Newest first; documents created at the same time come in descending
    order of their identifiers. *)
Definition created_desc (p q : string * OrderDoc) : Prop :=
  created (timestamps q.2) < created (timestamps p.2)
  \/ (created (timestamps q.2) = created (timestamps p.2) /\ String.le q.1 p.1).

(** The order of a query without [orderBy]: ascending identifiers. *)
Definition id_asc (p q : string * OrderDoc) : Prop := String.le p.1 q.1.

#[global] Instance created_desc_dec : RelDecision created_desc.
Proof. intros p q. unfold created_desc. apply _. Defined.

#[global] Instance id_asc_dec : RelDecision id_asc.
Proof. intros p q. unfold id_asc. apply _. Defined.

(** The documents of a collection that a query returns, in order. *)
Definition runQuery (cs : list QueryConstraint) (docs : gmap string OrderDoc)
  : list (string * OrderDoc) :=
  let matching :=
    filter (fun p : string * OrderDoc => forallb (fun c => passes c p.2) cs)
           (map_to_list docs) in
  let sorted :=
    if existsb is_orderBy cs then merge_sort created_desc matching
    else merge_sort id_asc matching in
  match limit_of cs with
  | Some n => take n sorted
  | None => sorted
  end.

(** [getDocs(query(collection(db, COLLECTION_NAME), ...constraints))] *)
Definition getDocs (qe : QueryEnv) (constraints : list QueryConstraint)
  : M (list (string * OrderDoc)) :=
  fun w =>
    match getDocsError qe with
    | Some e => (Throw e, w)
    | None => (Ok (runQuery constraints (orders w)), w)
    end.

(** The [Order] made from a query snapshot's document. *)
Definition orderOfSnapshot (p : string * OrderDoc) : Order := {| id := p.1; doc := p.2 |}.

Definition getOrderByOrderId (qe : QueryEnv) (orderId : string)
  : M (ApiResponse (option Order)) :=
  try_catch (
    let q := [where_orderId_eq orderId; limit 1] in
    querySnapshot ← getDocs qe q;
    match querySnapshot with
    | p :: _ =>
        mret {| success := true; data := Some (Some (orderOfSnapshot p));
                error := None; message := None |}
    | [] =>
        mret {| success := true; data := Some None; error := None;
                message := Some "Order not found" |}
    end)
  (fun error =>
    mret {| success := false; data := None; error := Some (getErrorMessage error);
            message := Some "Failed to fetch order by order ID" |}).

(** [OrderFilters]; [None] is a key that the object does not have. *)
Record OrderFilters := {
  f_status : option (list OrderStatus.t);
  f_type : option (list OrderType.t);
  f_dateRange : option (Z * Z);
  f_exchangeId : option string;
  f_searchTerm : option string
}.

(** [constraints.push(c)] when [cond] holds. *)
Definition push_if (cond : bool) (c : QueryConstraint) (constraints : list QueryConstraint)
  : list QueryConstraint :=
  if cond then constraints ++ [c] else constraints.

(** The constraints that [getOrders] builds; [filters] is [None] when the
    argument is left out. *)
Definition constraintsOf (filters : option OrderFilters) : list QueryConstraint :=
  let constraints := [] in
  let constraints :=
    match filters ≫= f_status with
    | Some st => push_if (0 <? length st)%nat (where_status_in st) constraints
    | None => constraints
    end in
  let constraints :=
    match filters ≫= f_type with
    | Some ty => push_if (0 <? length ty)%nat (where_type_in ty) constraints
    | None => constraints
    end in
  let constraints :=
    match filters ≫= f_exchangeId with
    | Some ex => push_if (truthy ex) (where_exchangeId_eq ex) constraints
    | None => constraints
    end in
  constraints ++ [orderBy_created_desc].

Definition getOrders (qe : QueryEnv) (filters : option OrderFilters)
  : M (ApiResponse (list Order)) :=
  try_catch (
    let constraints := constraintsOf filters in
    let q := if (0 <? length constraints)%nat then constraints else [] in
    querySnapshot ← getDocs qe q;
    let orders := orderOfSnapshot <$> querySnapshot in
    mret {| success := true; data := Some orders; error := None; message := None |})
  (fun error =>
    mret {| success := false; data := None; error := Some (getErrorMessage error);
            message := Some "Failed to fetch orders" |}).

(** [{ ...filters, exchangeId }] *)
Definition with_exchangeId (filters : option OrderFilters) (exchangeId : string)
  : OrderFilters :=
  {| f_status := filters ≫= f_status; f_type := filters ≫= f_type;
     f_dateRange := filters ≫= f_dateRange; f_exchangeId := Some exchangeId;
     f_searchTerm := filters ≫= f_searchTerm |}.

Definition getOrdersByExchange (qe : QueryEnv) (exchangeId : string)
    (filters : option OrderFilters) : M (ApiResponse (list Order)) :=
  getOrders qe (Some (with_exchangeId filters exchangeId)).

Definition getPendingOrders (qe : QueryEnv) : M (ApiResponse (list Order)) :=
  getOrders qe
    (Some {| f_status := Some [OrderStatus.submitted; OrderStatus.pending_review];
             f_type := None; f_dateRange := None; f_exchangeId := None;
             f_searchTerm := None |}).

(** ** Runs of the service *)

(** A call that can write to the store. *)
Inductive Op :=
| op_createOrder (env : Env) (orderData : OrderData)
| op_updateOrder (env : Env) (orderId : string) (updates : Updates.t)
| op_updateOrderStatus (env : Env) (orderId : string) (status : OrderStatus.t)
    (notes : option string)
| op_deleteOrder (qe : QueryEnv) (orderId : string).

Definition step (w : World) (o : Op) : World :=
  match o with
  | op_createOrder env orderData => (createOrder env orderData w).2
  | op_updateOrder env orderId updates => (updateOrder env orderId updates w).2
  | op_updateOrderStatus env orderId status notes =>
      (updateOrderStatus env orderId status notes w).2
  | op_deleteOrder qe orderId => (deleteOrder qe orderId w).2
  end.

(** The store after the calls [ops], made one after the other. *)
Definition run (ops : list Op) (w : World) : World := foldl step w ops.

(** Whether every [createOrder] of a run is made in a year with two digits
    or more on the Jordan calendar. *)
Definition created_from_year_10 (o : Op) : Prop :=
  match o with
  | op_createOrder env _ => 10 <= getFullYear (getJordanTime env)
  | _ => True
  end.

(** No two stored orders carry the same [orderId]. *)
Definition unique_orderIds (w : World) : Prop :=
  forall id1 id2 d1 d2,
    orders w !! id1 = Some d1 -> orders w !! id2 = Some d2 ->
    orderId d1 = orderId d2 -> id1 = id2.

(** Every stored [orderId] is made of a four-character month and a sequence
    number that the counter of that month has reached. *)
Definition ids_below_counters (w : World) : Prop :=
  forall id0 d,
    orders w !! id0 = Some d ->
    exists mk c,
      String.length mk = 4%nat
      /\ orderId d = "T" +:+ mk +:+ padStart (toString c) 4 "0"
      /\ 1 <= c <= counterValue w ("orders_" +:+ mk).

Definition counters_nonneg (w : World) : Prop := forall key, 0 <= counterValue w key.

Definition store_ok (w : World) : Prop :=
  unique_orderIds w /\ ids_below_counters w /\ counters_nonneg w.

(** What the filters of [getOrders] ask of an order: a status among
    [filters.status] when that list is given and not empty, a type among
    [filters.type] likewise, and the exchange [filters.exchangeId] when that
    is given and not empty. *)
Definition accepts (filters : option OrderFilters) (d : OrderDoc) : Prop :=
  (forall st, filters ≫= f_status = Some st -> st <> [] -> status (fields d) ∈ st)
  /\ (forall ty, filters ≫= f_type = Some ty -> ty <> [] -> type (fields d) ∈ ty)
  /\ (forall ex, filters ≫= f_exchangeId = Some ex -> ex <> "" ->
        exchangeId (fields d) = ex).

(** Newest first. *)
Definition newest_first (a b : Order) : Prop :=
  created (timestamps (doc b)) <= created (timestamps (doc a)).

(** The environment for queries and deletions in which every store call goes
    through. *)
Definition query_env_ok : QueryEnv :=
  {| deleteDocError := None; getDocsError := None |}.

(** A small history: three orders created in June 2025, the first deleted,
    the second approved, then a fourth order created. *)
Definition sample_run : list Op :=
  [op_createOrder (env_at (utc_instant 2025 6 10 9 0)) (sample_order OrderStatus.submitted);
   op_createOrder (env_at (utc_instant 2025 6 11 9 0)) (sample_order OrderStatus.submitted);
   op_createOrder (env_at (utc_instant 2025 6 12 9 0)) (sample_order OrderStatus.submitted);
   op_deleteOrder query_env_ok "doc";
   op_updateOrderStatus (env_at (utc_instant 2025 6 14 9 0)) "doc0" OrderStatus.approved None;
   op_createOrder (env_at (utc_instant 2025 6 15 9 0)) (sample_order OrderStatus.submitted)].

(** ** Regular expressions

    The part of JavaScript's regular expressions that the validators of
    [lib/auth.ts] and [lib/utils.ts] use: character classes, sequence,
    alternation and bounded repetition, matched by derivatives. Strings are
    sequences of code units below 256. *)

Inductive regex :=
| re_none                               (* matches nothing *)
| re_eps                                (* the empty string *)
| re_class (p : ascii -> bool)          (* one character of a class *)
| re_cat (r1 r2 : regex)                (* r1 r2 *)
| re_alt (r1 r2 : regex)                (* r1 | r2 *)
| re_star (r : regex).                  (* r* *)

(** The strings that a regular expression denotes. *)
Inductive lang : regex -> string -> Prop :=
| lang_eps : lang re_eps ""
| lang_class p c : p c = true -> lang (re_class p) (String c "")
| lang_cat r1 r2 s1 s2 : lang r1 s1 -> lang r2 s2 -> lang (re_cat r1 r2) (s1 +:+ s2)
| lang_alt_l r1 r2 s : lang r1 s -> lang (re_alt r1 r2) s
| lang_alt_r r1 r2 s : lang r2 s -> lang (re_alt r1 r2) s
| lang_star_nil r : lang (re_star r) ""
| lang_star_cons r s1 s2 : lang r s1 -> lang (re_star r) s2 -> lang (re_star r) (s1 +:+ s2).

Fixpoint nullable (r : regex) : bool :=
  match r with
  | re_none => false
  | re_eps => true
  | re_class _ => false
  | re_cat r1 r2 => nullable r1 && nullable r2
  | re_alt r1 r2 => nullable r1 || nullable r2
  | re_star _ => true
  end.

Fixpoint derive (c : ascii) (r : regex) : regex :=
  match r with
  | re_none => re_none
  | re_eps => re_none
  | re_class p => if p c then re_eps else re_none
  | re_cat r1 r2 =>
      if nullable r1
      then re_alt (re_cat (derive c r1) r2) (derive c r2)
      else re_cat (derive c r1) r2
  | re_alt r1 r2 => re_alt (derive c r1) (derive c r2)
  | re_star r1 => re_cat (derive c r1) (re_star r1)
  end.

(** Whether the whole of [s] matches [r]: [/^r$/.test(s)]. *)
Fixpoint matches (r : regex) (s : string) : bool :=
  match s with
  | EmptyString => nullable r
  | String c rest => matches (derive c r) rest
  end.

(** Whether some part of [s] matches [r]: [/r/.test(s)]. *)
Definition re_any : regex := re_class (fun _ => true).
Definition test (r : regex) (s : string) : bool :=
  matches (re_cat (re_star re_any) (re_cat r (re_star re_any))) s.

(** The characters of a literal, one after the other. *)
Fixpoint re_lit (s : string) : regex :=
  match s with
  | EmptyString => re_eps
  | String c rest => re_cat (re_class (fun x => bool_decide (x = c))) (re_lit rest)
  end.

(** [r{n}] *)
Fixpoint re_repeat (n : nat) (r : regex) : regex :=
  match n with
  | O => re_eps
  | S n' => re_cat r (re_repeat n' r)
  end.

(** [r{0,n}] *)
Fixpoint re_upto (n : nat) (r : regex) : regex :=
  match n with
  | O => re_eps
  | S n' => re_alt re_eps (re_cat r (re_upto n' r))
  end.

(** [r{m,n}] *)
Definition re_range (m n : nat) (r : regex) : regex :=
  re_cat (re_repeat m r) (re_upto (n - m) r).

(** [[lo-hi]] *)
Definition in_range (lo hi c : ascii) : bool :=
  ((N_of_ascii lo <=? N_of_ascii c) && (N_of_ascii c <=? N_of_ascii hi))%N.

(** [\d] *)
Definition is_digit (c : ascii) : bool := in_range "0" "9" c.
(** [[a-zA-Z]] *)
Definition is_letter (c : ascii) : bool := in_range "a" "z" c || in_range "A" "Z" c.
(** [\s]: the white space and line terminators below 256. *)
Definition is_space (c : ascii) : bool :=
  in_range "009" "013" c || bool_decide (c = " "%char) || bool_decide (c = "160"%char).

(** Whether every, or some, character of a string is in a class. *)
Fixpoint all_chars (p : ascii -> bool) (s : string) : bool :=
  match s with
  | EmptyString => true
  | String c rest => p c && all_chars p rest
  end.

Fixpoint some_char (p : ascii -> bool) (s : string) : bool :=
  match s with
  | EmptyString => false
  | String c rest => p c || some_char p rest
  end.

(** [s.replace(/[class]/g, '')]: every character of the class is removed. *)
Fixpoint removeAll (p : ascii -> bool) (s : string) : string :=
  match s with
  | EmptyString => ""
  | String c rest => if p c then removeAll p rest else String c (removeAll p rest)
  end.

(** [String.prototype.startsWith] *)
Definition startsWith (s searchString : string) : bool := String.prefix searchString s.

(** [String.prototype.slice(start, end)] *)
Definition slice2 (s : string) (start end_ : Z) : string :=
  let len := Z.of_nat (String.length s) in
  let from := if start <? 0 then Z.max (len + start) 0 else Z.min start len in
  let to := if end_ <? 0 then Z.max (len + end_) 0 else Z.min end_ len in
  String.substring (Z.to_nat from) (Z.to_nat (Z.max (to - from) 0)) s.

(** [String.prototype.lastIndexOf(c)] for a one-character search string: the
    position of the last [c], or -1. [i] is the position of the head of [s]
    and [found] the last position seen so far. *)
Fixpoint lastIndexOf_from (i found : Z) (s : string) (c : ascii) : Z :=
  match s with
  | EmptyString => found
  | String x rest => lastIndexOf_from (i + 1) (if decide (x = c) then i else found) rest c
  end.

Definition lastIndexOf (s : string) (c : ascii) : Z := lastIndexOf_from 0 (-1) s c.

(** [x >>> 0]: the unsigned 32-bit integer of [x]. *)
Definition toUint32 (x : Z) : Z := x mod 2 ^ 32.

(** ** [lib/auth.ts]: validation *)

(** [[a-zA-Z0-9_-]] *)
Definition is_username_char (c : ascii) : bool :=
  is_letter c || is_digit c || bool_decide (c = "_"%char) || bool_decide (c = "-"%char).

(** [/^[a-zA-Z0-9_-]{3,50}$/] *)
Definition usernameRegex : regex := re_range 3 50 (re_class is_username_char).

Definition validateUsername (username : string) : bool := matches usernameRegex username.

Definition validatePassword (password : string) : bool :=
  (8 <=? String.length password)%nat
  && test (re_class is_letter) password
  && test (re_class is_digit) password.

(** ** [lib/utils.ts] *)

Module Utils.
(** The placeholder of [lib/utils.ts]; [date] is [None] when the argument is
    left out and defaults to [new Date()]. *)
Definition generateOrderId (env : Env) (date : option Z) : string :=
  let date := match date with Some d => d | None => newDate env end in
  let jordanTime := utcToZonedTime env date JORDAN_TIMEZONE in
  let year := slice (toString (getFullYear jordanTime)) (-2) in
  let month := padStart (toString (getMonth jordanTime + 1)) 2 "0" in
  let sequence := "0001" in
  "T" +:+ year +:+ month +:+ sequence.
End Utils.

(** [[789]] *)
Definition is_789 (c : ascii) : bool := in_range "7" "9" c.

(** [[\s-]] *)
Definition is_space_or_dash (c : ascii) : bool := is_space c || bool_decide (c = "-"%char).

(** [/^(00962[789]\d{8}|0[789]\d{8})$/] *)
Definition mobileRegex : regex :=
  re_alt
    (re_cat (re_lit "00962") (re_cat (re_class is_789) (re_repeat 8 (re_class is_digit))))
    (re_cat (re_lit "0") (re_cat (re_class is_789) (re_repeat 8 (re_class is_digit)))).

Definition validateJordanianMobile (mobile : string) : bool :=
  let cleanMobile := removeAll is_space_or_dash mobile in
  matches mobileRegex cleanMobile.

Definition formatJordanianMobile (mobile : string) : string :=
  let cleanMobile := removeAll is_space_or_dash mobile in
  if startsWith cleanMobile "00962" then cleanMobile
  else if startsWith cleanMobile "0" then "00962" +:+ slice cleanMobile 1
  else mobile.

Definition getFileExtension (filename : string) : string :=
  slice filename (toUint32 (lastIndexOf filename "." - 1) + 2).

(** [maxLength] is an integer. *)
Definition truncateText (text : string) (maxLength : Z) : string :=
  if Z.of_nat (String.length text) <=? maxLength then text
  else slice2 text 0 maxLength +:+ "...".

(** Whether a string holds no dot. *)
Definition no_dot (s : string) : bool :=
  all_chars (fun c => negb (bool_decide (c = "."%char))) s.

(** [String.prototype.toLowerCase] on code units below 256: the letters
    [A-Z] and the capital letters of Latin-1 (all of 192 to 222 but the
    multiplication sign 215) move up by 32. *)
Definition toLowerCase_char (c : ascii) : ascii :=
  let n := N_of_ascii c in
  if ((65 <=? n) && (n <=? 90) || (192 <=? n) && (n <=? 222) && negb (n =? 215))%N
  then ascii_of_N (n + 32) else c.

Fixpoint toLowerCase (s : string) : string :=
  match s with
  | EmptyString => ""
  | String c rest => String (toLowerCase_char c) (toLowerCase rest)
  end.

Definition imageExtensions : list string := ["jpg"; "jpeg"; "png"; "gif"; "webp"; "svg"].

(** [imageExtensions.includes(extension)] *)
Definition isImageFile (filename : string) : bool :=
  let extension := toLowerCase (getFileExtension filename) in
  bool_decide (extension ∈ imageExtensions).

(** * Properties *)

(** ** Decimal strings *)

Lemma digit_of_pretty_N_char (x : N) :
  (x < 10)%N -> digit_of (pretty_N_char x) = Some (Z.of_N x).
Proof.
  intros Hx.
  assert (x = 0 \/ x = 1 \/ x = 2 \/ x = 3 \/ x = 4 \/ x = 5 \/ x = 6 \/ x = 7
          \/ x = 8 \/ x = 9)%N as Hcases by lia.
  repeat (destruct Hcases as [-> | Hcases]; [reflexivity |]).
  subst x. reflexivity.
Qed.

Lemma app_cons (c : ascii) (a b : string) : String c a +:+ b = String c (a +:+ b).
Proof. reflexivity. Qed.

Lemma app_nil (b : string) : "" +:+ b = b.
Proof. reflexivity. Qed.

Lemma parse_go_app (s1 s2 : string) (acc : Z) :
  parse_go acc (s1 +:+ s2) =
  match parse_go acc s1 with
  | Some v => parse_go v s2
  | None => None
  end.
Proof.
  revert acc. induction s1 as [| c s1 IH]; intros acc; [reflexivity |].
  rewrite app_cons. simpl. destruct (digit_of c); [apply IH | reflexivity].
Qed.

Lemma string_app_assoc (a b c : string) : (a +:+ b) +:+ c = a +:+ (b +:+ c).
Proof. induction a as [| x a IH]; [reflexivity | by rewrite !app_cons, IH]. Qed.

Lemma string_app_length (a b : string) :
  String.length (a +:+ b) = (String.length a + String.length b)%nat.
Proof. induction a as [| x a IH]; [reflexivity | rewrite app_cons; simpl; f_equal; exact IH]. Qed.

(** [pretty_N_go x s] puts the digits of [x] in front of [s]: they parse back
    to [x], and there are no more of them than [x] needs. *)
Lemma pretty_N_go_digits (x : N) (s : string) :
  exists ds : string,
    pretty_N_go x s = ds +:+ s
    /\ (forall acc, parse_go acc ds = Some (acc * 10 ^ Z.of_nat (String.length ds) + Z.of_N x))
    /\ (forall k : nat, Z.of_N x < 10 ^ Z.of_nat k -> (String.length ds <= k)%nat).
Proof.
  revert s. induction (N.lt_wf_0 x) as [x _ IH]. intros s.
  destruct (decide (x = 0%N)) as [-> | Hx].
  - exists "". rewrite pretty_N_go_0. split; [reflexivity |]. split.
    + intros acc. simpl. f_equal. lia.
    + intros k _. simpl. lia.
  - assert (0 < x)%N as Hpos by lia.
    rewrite (pretty_N_go_step x s Hpos).
    destruct (IH (x `div` 10)%N) with (s := String (pretty_N_char (x `mod` 10)) s)
      as (ds & Heq & Hparse & Hlen).
    { apply N.div_lt; lia. }
    exists (ds +:+ String (pretty_N_char (x `mod` 10)) "").
    split; [| split].
    + rewrite Heq, string_app_assoc. reflexivity.
    + intros acc. rewrite parse_go_app, Hparse. simpl.
      rewrite digit_of_pretty_N_char by (apply N.mod_lt; lia).
      f_equal. rewrite string_app_length. simpl.
      rewrite Nat2Z.inj_add, Z.pow_add_r by lia.
      rewrite N2Z.inj_mod, N2Z.inj_div.
      change (Z.of_N 10) with 10. change (10 ^ Z.of_nat 1) with 10.
      pose proof (Z.div_mod (Z.of_N x) 10 ltac:(lia)). lia.
    + intros k Hk. rewrite string_app_length. simpl.
      destruct k as [| k].
      { simpl in Hk. lia. }
      assert (String.length ds <= k)%nat; [| lia].
      apply Hlen. rewrite N2Z.inj_div. change (Z.of_N 10) with 10.
      rewrite Nat2Z.inj_succ, Z.pow_succ_r in Hk by lia.
      apply Z.div_lt_upper_bound; lia.
Qed.


Lemma app_empty_r (a : string) : a +:+ "" = a.
Proof. induction a as [| x a IH]; [reflexivity | by rewrite app_cons, IH]. Qed.

(** [toString] of a natural number parses back to it, and a number below
    [10 ^ k] takes at most [k] characters ([k] at least 1). *)
Lemma toString_digits (n : Z) :
  0 <= n ->
  parseDecimal (toString n) = Some n
  /\ (forall k : nat, (1 <= k)%nat -> n < 10 ^ Z.of_nat k -> (String.length (toString n) <= k)%nat).
Proof.
  intros Hn. destruct n as [| p | p]; [| | lia].
  - split; [reflexivity |]. intros k Hk _. simpl. lia.
  - unfold toString, pretty, pretty_Z, pretty, pretty_positive, pretty, pretty_N.
    rewrite decide_False by discriminate.
    destruct (pretty_N_go_digits (N.pos p) "") as (ds & -> & Hparse & Hlen).
    rewrite app_empty_r. split.
    + unfold parseDecimal. rewrite Hparse. f_equal.
    + intros k _ Hk. apply Hlen. exact Hk.
Qed.

Lemma fill_zero (n : nat) : fill n "0" "" = zeros n /\ fill n "0" "0" = zeros n.
Proof.
  induction n as [| n [IH1 IH2]]; [split; reflexivity |].
  split; simpl; by rewrite IH1.
Qed.

Lemma padStart_zero (s : string) (k : nat) :
  padStart s k "0" = zeros (k - String.length s) +:+ s.
Proof.
  unfold padStart. destruct (Nat.leb_spec k (String.length s)) as [Hle | Hlt].
  - replace (k - String.length s)%nat with 0%nat by lia. reflexivity.
  - by rewrite (proj2 (fill_zero _)).
Qed.

Lemma zeros_length (k : nat) : String.length (zeros k) = k.
Proof. induction k as [| k IH]; simpl; [reflexivity | by rewrite IH]. Qed.

Lemma parse_go_zeros (k : nat) (s : string) : parse_go 0 (zeros k +:+ s) = parse_go 0 s.
Proof.
  induction k as [| k IH]; [reflexivity |].
  change (zeros (S k)) with (String "0" (zeros k)). rewrite app_cons. exact IH.
Qed.

Lemma padStart_zero_length (s : string) (k : nat) :
  String.length (padStart s k "0") = Nat.max k (String.length s).
Proof. rewrite padStart_zero, string_app_length, zeros_length. lia. Qed.

(** The sequence part of an identifier denotes the counter value. *)
Lemma sequence_parse (c : Z) (k : nat) :
  0 <= c -> parseDecimal (padStart (toString c) k "0") = Some c.
Proof.
  intros Hc. rewrite padStart_zero. unfold parseDecimal.
  rewrite parse_go_zeros. apply (toString_digits c Hc).
Qed.

Lemma sequence_inj (a b : Z) (k : nat) :
  0 <= a -> 0 <= b ->
  padStart (toString a) k "0" = padStart (toString b) k "0" -> a = b.
Proof.
  intros Ha Hb Heq.
  pose proof (sequence_parse a k Ha) as Pa.
  pose proof (sequence_parse b k Hb) as Pb.
  rewrite Heq in Pa. congruence.
Qed.

(** Up to 9999 the sequence part has exactly four characters. *)
Lemma sequence_length (c : Z) :
  0 <= c <= 9999 -> String.length (padStart (toString c) 4 "0") = 4%nat.
Proof.
  intros Hc. rewrite padStart_zero_length.
  assert (String.length (toString c) <= 4)%nat; [| lia].
  apply (toString_digits c); [lia | lia |]. change (10 ^ Z.of_nat 4) with 10000. lia.
Qed.


Lemma substring_length (s : string) (n m : nat) :
  (n + m <= String.length s)%nat -> String.length (String.substring n m s) = m.
Proof.
  revert n m. induction s as [| c s IH]; intros n m Hlen; simpl in Hlen.
  - assert (n = 0 /\ m = 0)%nat as [-> ->] by lia. reflexivity.
  - destruct n as [| n]; simpl.
    + destruct m as [| m]; [reflexivity |]. simpl. f_equal. apply IH. lia.
    + apply IH. lia.
Qed.

(** [slice(-2)] of a string of two characters or more has two characters. *)
Lemma slice_last_two_length (s : string) :
  (2 <= String.length s)%nat -> String.length (slice s (-2)) = 2%nat.
Proof.
  intros Hlen. unfold slice.
  replace (-2 <? 0) with true by reflexivity.
  rewrite Z.max_l by lia.
  replace (Z.to_nat (Z.of_nat (String.length s) - (Z.of_nat (String.length s) + -2)))
    with 2%nat by lia.
  apply substring_length. lia.
Qed.

Lemma digit_of_bound (c : ascii) (d : Z) : digit_of c = Some d -> 0 <= d <= 9.
Proof.
  unfold digit_of. intros H.
  repeat (case_decide; [injection H as <-; lia |]). discriminate.
Qed.

(** A string of [k] digits denotes a number below [10 ^ k]. *)
Lemma parse_go_bound (s : string) (acc v : Z) :
  0 <= acc -> parse_go acc s = Some v ->
  v < (acc + 1) * 10 ^ Z.of_nat (String.length s).
Proof.
  revert acc. induction s as [| c s IH]; intros acc Hacc Hparse; simpl in Hparse.
  - injection Hparse as <-. simpl. lia.
  - destruct (digit_of c) as [d |] eqn:Hd; [| discriminate].
    apply digit_of_bound in Hd.
    apply IH in Hparse; [| lia].
    cbn [String.length]. rewrite Nat2Z.inj_succ, Z.pow_succ_r by lia.
    assert (0 < 10 ^ Z.of_nat (String.length s)) by (apply Z.pow_pos_nonneg; lia).
    nia.
Qed.

Lemma toString_two_digits (n : Z) : 10 <= n -> (2 <= String.length (toString n))%nat.
Proof.
  intros Hn. destruct (toString_digits n ltac:(lia)) as [Hparse _].
  apply parse_go_bound in Hparse; [| lia].
  destruct (String.length (toString n)) as [| [| k]]; [simpl in Hparse; lia .. | lia].
Qed.


(** ** The calendar *)

Lemma civ_month_range (days : Z) : 1 <= civ_month (civil_from_days days) <= 12.
Proof.
  unfold civil_from_days. cbv zeta. cbn [civ_month].
  set (z := days + 719468).
  set (doe := z - z / 146097 * 146097).
  assert (0 <= doe <= 146096) as Hdoe.
  { unfold doe. Z.to_euclidean_division_equations; lia. }
  clearbody doe. clear z.
  set (yoe := (doe - doe / 1460 + doe / 36524 - doe / 146096) / 365).
  set (doy := doe - (365 * yoe + yoe / 4 - yoe / 100)).
  assert (0 <= doy <= 365) as Hdoy.
  { unfold doy, yoe. Z.to_euclidean_division_equations; lia. }
  clearbody doy.
  destruct (Z.ltb_spec ((5 * doy + 2) / 153) 10);
    Z.to_euclidean_division_equations; lia.
Qed.

Lemma getMonth_civil (d : Date) :
  getMonth d + 1 = civ_month (civil_from_days (localTime d / msPerDay)).
Proof. unfold getMonth. lia. Qed.

(** The month part of an identifier always has two characters, the year
    part has two from the year 10 on. *)
Lemma monthDigits_length (now : Date) : String.length (monthDigits now) = 2%nat.
Proof.
  unfold monthDigits. rewrite getMonth_civil, padStart_zero_length.
  pose proof (civ_month_range (localTime now / msPerDay)) as Hm.
  assert (String.length (toString (civ_month (civil_from_days (localTime now / msPerDay)))) <= 2)%nat;
    [| lia].
  apply toString_digits; [lia | lia |]. change (10 ^ Z.of_nat 2) with 100. lia.
Qed.

Lemma yearDigits_length (now : Date) :
  10 <= getFullYear now -> String.length (yearDigits now) = 2%nat.
Proof. intros Hy. apply slice_last_two_length, toString_two_digits, Hy. Qed.


(** ** The allocator *)

Section one_call.

Context (env : Env) (w : World).

Lemma generateOrderId_throws (e : string) :
  txError env = Some e -> generateOrderId env w = (Throw e, w).
Proof. intros He. unfold generateOrderId, runTransaction. by rewrite He. Qed.

Lemma formatOrderId_monthKey (c : Z) :
  formatOrderId env c = "T" +:+ monthKey env +:+ padStart (toString c) 4 "0".
Proof. unfold formatOrderId, monthKey. by rewrite string_app_assoc. Qed.

Lemma counterKey_inj (mk : string) :
  counterKey env = "orders_" +:+ mk -> monthKey env = mk.
Proof. unfold counterKey. intros H. by apply (inj (String.app "orders_")) in H. Qed.

Section committed.

(** The transaction of this call commits. *)
Hypothesis Hok : txError env = None.

Lemma generateOrderId_commits :
  generateOrderId env w =
    (Ok (formatOrderId env (counterValue w (counterKey env) + 1)),
     with_counters
       (<[counterKey env :=
            {| count := counterValue w (counterKey env) + 1;
               month := match counters w !! counterKey env with
                        | Some d => month d
                        | None => monthKey env
                        end |}]> (counters w)) w).
Proof.
  unfold generateOrderId, runTransaction. rewrite Hok.
  fold (monthKey env). fold (counterKey env).
  unfold mbind, M_bind, transaction_get, counterValue.
  destruct (counters w !! counterKey env) as [d |] eqn:Hd.
  - unfold transaction_update_count. rewrite Hd. reflexivity.
  - reflexivity.
Qed.

Lemma counterValue_after_same :
  counterValue (generateOrderId env w).2 (counterKey env)
  = counterValue w (counterKey env) + 1.
Proof.
  rewrite generateOrderId_commits. unfold counterValue at 1.
  simpl. by rewrite lookup_insert_eq.
Qed.

Lemma allocated_in_commits (mk : string) :
  allocated_in mk (env, (generateOrderId env w).1) =
    if decide (monthKey env = mk)
    then Some (formatOrderId env (counterValue w (counterKey env) + 1))
    else None.
Proof. by rewrite generateOrderId_commits. Qed.

End committed.

Lemma counters_after_other (key : string) :
  key <> counterKey env ->
  counters (generateOrderId env w).2 !! key = counters w !! key.
Proof.
  intros Hne. destruct (txError env) as [e |] eqn:He.
  - by rewrite (generateOrderId_throws e He).
  - rewrite (generateOrderId_commits He). simpl. by rewrite lookup_insert_ne.
Qed.

Lemma orders_after_allocation :
  orders (generateOrderId env w).2 = orders w.
Proof.
  destruct (txError env) as [e |] eqn:He.
  - by rewrite (generateOrderId_throws e He).
  - by rewrite (generateOrderId_commits He).
Qed.

End one_call.

Lemma omap_cons_unfold {A B} (f : A -> option B) (x : A) (l : list A) :
  omap f (x :: l) = match f x with Some y => y :: omap f l | None => omap f l end.
Proof. reflexivity. Qed.

(** From a counter at [c0], the successful calls of month [mk] get
    [c0 + 1], [c0 + 2], ... in order. *)
Lemma allocations_from (envs : list Env) (w : World) (mk : string) :
  let ids := omap (allocated_in mk) (allocations envs w).1 in
  let c0 := counterValue w ("orders_" +:+ mk) in
  ids = (fun i : nat => "T" +:+ mk +:+ padStart (toString (c0 + Z.of_nat i)) 4 "0")
          <$> seq 1 (length ids)
  /\ counterValue (allocations envs w).2 ("orders_" +:+ mk) = c0 + Z.of_nat (length ids).
Proof.
  revert w. induction envs as [| env rest IH]; intros w.
  { simpl. split; [reflexivity | lia]. }
  cbn [allocations fst snd]. rewrite omap_cons_unfold.
  specialize (IH (generateOrderId env w).2). cbv zeta in IH.
  set (tail := omap (allocated_in mk) (allocations rest (generateOrderId env w).2).1) in *.
  destruct IH as [IHids IHcount].
  destruct (txError env) as [e |] eqn:He.
  - rewrite (generateOrderId_throws env w e He) in *. by split.
  - rewrite (allocated_in_commits env w He mk).
    destruct (decide (monthKey env = mk)) as [<- | Hother].
    + fold (counterKey env) in *.
      rewrite (counterValue_after_same env w He) in IHids, IHcount.
      split.
      * rewrite formatOrderId_monthKey. cbn [length seq fmap list_fmap]. f_equal.
        rewrite IHids at 1. rewrite <- (fmap_S_seq 1), <- list_fmap_compose.
        apply list_fmap_ext. intros _ i _. unfold compose.
        by replace (counterValue w (counterKey env) + 1 + Z.of_nat i)
          with (counterValue w (counterKey env) + Z.of_nat (S i)) by lia.
      * rewrite IHcount. cbn [length]. lia.
    + assert (counterValue (generateOrderId env w).2 ("orders_" +:+ mk)
              = counterValue w ("orders_" +:+ mk)) as Hsame.
      { unfold counterValue. rewrite counters_after_other; [done |].
        intros Heq. symmetry in Heq. by apply counterKey_inj in Heq. }
      rewrite Hsame in IHids, IHcount. by split.
Qed.

(** ** Claims about the allocator *)

Lemma sequence_format_inj (mk : string) :
  Inj (=) (=) (fun i : nat => "T" +:+ mk +:+ padStart (toString (Z.of_nat i)) 4 "0").
Proof.
  intros a b Heq.
  apply (inj (String.app "T")), (inj (String.app mk)) in Heq.
  apply sequence_inj in Heq; lia.
Qed.

(** C1. Each successful allocation adds exactly 1 to the counter of its month
    and returns the identifier made from the new value; over any run of
    sequential calls that starts with no counter for month [mk], the
    successful allocations of that month carry, in order, the sequence
    numbers 1, 2, ..., n, are pairwise different, and leave the counter at n. *)
Theorem allocations_in_month_gapless (envs : list Env) (w : World) (mk : string) :
  counters w !! ("orders_" +:+ mk) = None ->
  let ids := omap (allocated_in mk) (allocations envs w).1 in
  ids = (fun i : nat => "T" +:+ mk +:+ padStart (toString (Z.of_nat i)) 4 "0")
          <$> seq 1 (length ids)
  /\ NoDup ids
  /\ counterValue (allocations envs w).2 ("orders_" +:+ mk) = Z.of_nat (length ids)
  /\ (forall (env : Env) (w0 : World),
        txError env = None ->
        counterValue (generateOrderId env w0).2 (counterKey env)
          = counterValue w0 (counterKey env) + 1
        /\ (generateOrderId env w0).1
          = Ok (formatOrderId env (counterValue (generateOrderId env w0).2 (counterKey env)))).
Proof.
  intros Hfresh ids.
  destruct (allocations_from envs w mk) as [Hids Hcount].
  assert (counterValue w ("orders_" +:+ mk) = 0) as Hzero
    by (unfold counterValue; by rewrite Hfresh).
  rewrite Hzero in Hids, Hcount.
  fold ids in Hids, Hcount.
  assert (ids = (fun i : nat => "T" +:+ mk +:+ padStart (toString (Z.of_nat i)) 4 "0")
                  <$> seq 1 (length ids)) as Hseq.
  { rewrite Hids at 1. apply list_fmap_ext. intros _ i _. by rewrite Z.add_0_l. }
  split; [exact Hseq |]. split; [| split].
  - rewrite Hseq. apply NoDup_fmap_2; [apply sequence_format_inj | apply NoDup_seq].
  - rewrite Hcount. lia.
  - intros env w0 Hok. rewrite (counterValue_after_same env w0 Hok).
    split; [reflexivity |]. by rewrite (generateOrderId_commits env w0 Hok).
Qed.

Lemma allocations_in_month_gapless_witness :
  let envs := [env_at (utc_instant 2025 6 10 9 0);
               env_tx_failing (utc_instant 2025 6 11 9 0) "unavailable";
               env_at (utc_instant 2025 6 12 9 0);
               env_at (utc_instant 2025 7 2 9 0);
               env_at (utc_instant 2025 6 30 20 0)] in
  counters emptyWorld !! "orders_2506" = None
  /\ omap (allocated_in "2506") (allocations envs emptyWorld).1
     = ["T25060001"; "T25060002"; "T25060003"]
  /\ counterValue (allocations envs emptyWorld).2 "orders_2506" = 3.
Proof.
  intros envs. split; [reflexivity |].
  destruct (allocations_in_month_gapless envs emptyWorld "2506" eq_refl)
    as (Hids & _ & Hcount & _).
  split; [rewrite Hids; reflexivity | etrans; [exact Hcount | reflexivity]].
Defined.

(** C2. The month of an allocation is the month of the Asia/Amman wall clock
    at the instant of the call: the identifier starts with [T], the last two
    digits of that year and the two digits of that month, and the counter
    written is the one keyed by them; no other counter changes. At
    2025-06-30T22:00 UTC, with Jordan at UTC+3, the UTC month is June and the
    identifier and the counter key carry [2507]. *)
Theorem allocation_uses_jordan_month (env : Env) (w : World) :
  txError env = None ->
  let jordan :=
    civil_from_days
      ((newDate env + tzOffset env "Asia/Amman" (newDate env)) / msPerDay) in
  let YY := slice (toString (civ_year jordan)) (-2) in
  let MM := padStart (toString (civ_month jordan)) 2 "0" in
  (exists c : Z,
      (generateOrderId env w).1 = Ok ("T" +:+ YY +:+ MM +:+ padStart (toString c) 4 "0")
      /\ count <$> counters (generateOrderId env w).2 !! ("orders_" +:+ YY +:+ MM) = Some c
      /\ forall key, key <> "orders_" +:+ YY +:+ MM ->
           counters (generateOrderId env w).2 !! key = counters w !! key)
  /\ (newDate env = utc_instant 2025 6 30 22 0 ->
      tzOffset env "Asia/Amman" (newDate env) = 3 * 3600000 ->
      civ_month (civil_from_days (newDate env / msPerDay)) = 6
      /\ YY = "25" /\ MM = "07").
Proof.
  intros Hok jordan YY MM.
  assert (yearDigits (getJordanTime env) = YY) as Hyy by reflexivity.
  assert (monthDigits (getJordanTime env) = MM) as Hmm.
  { unfold monthDigits. by rewrite getMonth_civil. }
  assert (counterKey env = "orders_" +:+ YY +:+ MM) as Hkey.
  { unfold counterKey, monthKey. by rewrite Hyy, Hmm. }
  split.
  - exists (counterValue w (counterKey env) + 1).
    rewrite (generateOrderId_commits env w Hok). cbn [fst snd counters with_counters].
    unfold formatOrderId. rewrite Hyy, Hmm, <- Hkey. split; [reflexivity |]. split.
    + by rewrite lookup_insert_eq.
    + intros key Hne. by rewrite lookup_insert_ne.
  - intros Hnow Hoff. subst YY MM jordan. rewrite Hoff, Hnow. by vm_compute.
Qed.

Lemma allocation_uses_jordan_month_witness :
  let env := env_at (utc_instant 2025 6 30 22 0) in
  let jordan := civil_from_days ((newDate env + 3 * 3600000) / msPerDay) in
  txError env = None
  /\ civ_month (civil_from_days (newDate env / msPerDay)) = 6
  /\ slice (toString (civ_year jordan)) (-2) = "25"
  /\ padStart (toString (civ_month jordan)) 2 "0" = "07"
  /\ (generateOrderId env emptyWorld).1 = Ok "T25070001".
Proof.
  intros env jordan. split; [reflexivity |].
  destruct (allocation_uses_jordan_month env emptyWorld eq_refl) as [_ Hjune].
  destruct (Hjune eq_refl eq_refl) as (Hutc & Hyy & Hmm).
  split; [exact Hutc |]. split; [exact Hyy |]. split; [exact Hmm | reflexivity].
Defined.

(** C3. The identifier returned is [T], the year digits, the month digits and
    the counter value after the increment, padded with zeros to four
    characters: for values 1 to 9999 these are exactly four digits that
    denote the value. The month part has two characters (and the year part
    too, from the year 10 on). With no counter document for the month the
    sequence is [0001]; in particular the first allocation of a month that
    follows an allocation of another month starts at [0001] under its own key
    and leaves the other month's counter alone. *)
Theorem order_id_format (env : Env) (w : World) :
  txError env = None ->
  let now := getJordanTime env in
  let c := counterValue w (counterKey env) + 1 in
  let SEQ4 := padStart (toString c) 4 "0" in
  (generateOrderId env w).1 = Ok ("T" +:+ yearDigits now +:+ monthDigits now +:+ SEQ4)
  /\ counterValue (generateOrderId env w).2 (counterKey env) = c
  /\ (1 <= c <= 9999 -> String.length SEQ4 = 4%nat /\ parseDecimal SEQ4 = Some c)
  /\ String.length (monthDigits now) = 2%nat
  /\ (10 <= getFullYear now -> String.length (yearDigits now) = 2%nat)
  /\ (counters w !! counterKey env = None -> SEQ4 = "0001")
  /\ (forall (prev : Env) (w0 : World),
        monthKey prev <> monthKey env ->
        counters w0 !! counterKey env = None ->
        (generateOrderId env (generateOrderId prev w0).2).1
          = Ok ("T" +:+ yearDigits now +:+ monthDigits now +:+ "0001")
        /\ counterValue (generateOrderId env (generateOrderId prev w0).2).2 (counterKey env) = 1
        /\ counters (generateOrderId env (generateOrderId prev w0).2).2 !! counterKey prev
           = counters (generateOrderId prev w0).2 !! counterKey prev).
Proof.
  intros Hok now c SEQ4.
  split; [by rewrite (generateOrderId_commits env w Hok) |].
  split; [apply (counterValue_after_same env w Hok) |].
  split; [intros Hc; split; [apply sequence_length; lia | apply sequence_parse; lia] |].
  split; [apply monthDigits_length |].
  split; [apply yearDigits_length |].
  split.
  - intros Hnone. subst SEQ4 c. unfold counterValue. by rewrite Hnone.
  - intros prev w0 Hmonth Hnone.
    assert (counterKey env <> counterKey prev) as Hkeys.
    { unfold counterKey. intros Heq. by apply (inj (String.app "orders_")) in Heq. }
    assert (counters (generateOrderId prev w0).2 !! counterKey env = None) as Hstill
      by (by rewrite counters_after_other).
    assert (counterValue (generateOrderId prev w0).2 (counterKey env) = 0) as Hzero
      by (unfold counterValue; by rewrite Hstill).
    split; [| split].
    + rewrite (generateOrderId_commits env _ Hok). cbn [fst]. unfold formatOrderId.
      by rewrite Hzero.
    + rewrite (counterValue_after_same env _ Hok). lia.
    + apply counters_after_other. congruence.
Qed.

Lemma order_id_format_witness :
  (generateOrderId (env_at (utc_instant 2025 7 1 9 0))
     (generateOrderId (env_at (utc_instant 2025 6 30 9 0)) emptyWorld).2).1
  = Ok "T25070001".
Proof.
  destruct (order_id_format (env_at (utc_instant 2025 7 1 9 0)) emptyWorld eq_refl)
    as (_ & _ & _ & _ & _ & _ & Hboundary).
  destruct (Hboundary (env_at (utc_instant 2025 6 30 9 0)) emptyWorld) as (Hid & _ & _).
  - vm_compute. discriminate.
  - reflexivity.
  - rewrite Hid. reflexivity.
Defined.

(** At 9999 the next sequence takes five characters. *)
Lemma sequence_beyond_9999 :
  padStart (toString 10000) 4 "0" = "10000".
Proof. reflexivity. Qed.

(** ** Creating and updating orders *)

Lemma try_catch_ret_world {A} (body : M A) (h : string -> A) (w : World) :
  (try_catch body (fun e => mret (h e)) w).2 = (body w).2.
Proof. unfold try_catch. by destruct (body w) as [[a | e] w']. Qed.

Lemma bind_world {A B} (m : M A) (k : A -> M B) (w : World) :
  (forall a w', (k a w').2 = w') -> ((m ≫= k) w).2 = (m w).2.
Proof.
  intros Hk. unfold mbind, M_bind. destruct (m w) as [[a | e] w']; [apply Hk | reflexivity].
Qed.

Lemma createOrder_commits (env : Env) (od : OrderData) (w : World) :
  txError env = None -> addDocError env = None ->
  let D := createdDoc od (formatOrderId env (counterValue w (counterKey env) + 1))
             (timestampNow env) in
  let newId := fresh_string "doc" (orders w) in
  createOrder env od w =
    (Ok {| success := true; data := Some {| id := newId; doc := D |}; error := None;
           message := Some "Order created successfully" |},
     with_orders (<[newId := D]> (orders w)) (generateOrderId env w).2).
Proof.
  intros Htx Hadd. unfold createOrder, try_catch, mbind, M_bind.
  rewrite (generateOrderId_commits env w Htx). unfold addDoc. rewrite Hadd.
  reflexivity.
Qed.

Lemma createOrder_allocation_fails (env : Env) (od : OrderData) (w : World) (e : string) :
  txError env = Some e ->
  createOrder env od w =
    (Ok {| success := false; data := None; error := Some e;
           message := Some "Failed to create order" |}, w).
Proof.
  intros Htx. unfold createOrder, try_catch, mbind, M_bind.
  by rewrite (generateOrderId_throws env w e Htx).
Qed.

Lemma createOrder_addDoc_fails (env : Env) (od : OrderData) (w : World) (e : string) :
  txError env = None -> addDocError env = Some e ->
  createOrder env od w =
    (Ok {| success := false; data := None; error := Some e;
           message := Some "Failed to create order" |}, (generateOrderId env w).2).
Proof.
  intros Htx Hadd. unfold createOrder, try_catch, mbind, M_bind.
  rewrite (generateOrderId_commits env w Htx). unfold addDoc. rewrite Hadd.
  reflexivity.
Qed.

Lemma getOrderById_world (env : Env) (id : string) (w : World) :
  (getOrderById env id w).2 = w.
Proof.
  unfold getOrderById. rewrite try_catch_ret_world.
  unfold mbind, M_bind, getDoc.
  destruct (getDocError env); [reflexivity |]. by destruct (orders w !! id).
Qed.

Section stored_order.

(** An order stored under [docId], and an [updateDoc] that goes through. *)
Context (env : Env) (docId : string) (u : Updates.t) (w : World) (d : OrderDoc).
Hypothesis Hupd : updateDocError env = None.
Hypothesis Hd : orders w !! docId = Some d.

(** [updateOrder] replaces the stored document by its merge with the update
    data, and touches nothing else. *)
Lemma updateOrder_world :
  (updateOrder env docId u w).2
  = with_orders (<[docId := merge (updateDataOf (timestampNow env) u) d]> (orders w)) w.
Proof.
  unfold updateOrder. rewrite try_catch_ret_world. cbv zeta.
  rewrite bind_world.
  - unfold updateDoc. by rewrite Hupd, Hd.
  - intros _ w'. rewrite bind_world; [apply getOrderById_world |].
    intros result w''. by destruct (success result), (data result) as [[order |] |].
Qed.

(** When the read-back goes through as well, the call reports success and
    returns the merged document. *)
Lemma updateOrder_result :
  getDocError env = None ->
  (updateOrder env docId u w).1
  = Ok {| success := true;
          data := Some {| id := docId; doc := merge (updateDataOf (timestampNow env) u) d |};
          error := None; message := Some "Order updated successfully" |}.
Proof.
  intros Hget.
  unfold updateOrder, try_catch, mbind, M_bind, updateDoc, getOrderById, try_catch,
    mbind, M_bind, getDoc.
  rewrite Hupd, Hd, Hget. cbn [orders with_orders]. by rewrite lookup_insert_eq.
Qed.

End stored_order.

(** A missing document is reported as a failure, and nothing is written. *)
Lemma updateOrder_missing (env : Env) (id : string) (u : Updates.t) (w : World) :
  orders w !! id = None ->
  (updateOrder env id u w).2 = w /\
  exists resp, (updateOrder env id u w).1 = Ok resp /\ success resp = false.
Proof.
  intros Hd. unfold updateOrder, try_catch, mbind, M_bind, updateDoc. rewrite Hd.
  destruct (updateDocError env); simpl; eauto.
Qed.

(** The three status-specific timestamps after a merge. *)
Lemma merge_fields (now : Z) (u : Updates.t) (d : OrderDoc) :
  fields (merge (updateDataOf now u) d) = mergeFields u (fields d).
Proof. unfold updateDataOf. by destruct (Updates.status u) as [[] |]. Qed.

Lemma merge_orderId (ud : UpdateData) (d : OrderDoc) : orderId (merge ud d) = orderId d.
Proof. reflexivity. Qed.

Lemma merge_created (ud : UpdateData) (d : OrderDoc) :
  created (timestamps (merge ud d)) = created (timestamps d).
Proof. reflexivity. Qed.

Lemma merge_updated (now : Z) (u : Updates.t) (d : OrderDoc) :
  updated (timestamps (merge (updateDataOf now u) d)) = now.
Proof. unfold updateDataOf. by destruct (Updates.status u) as [[] |]. Qed.

Lemma merge_approved (now : Z) (u : Updates.t) (d : OrderDoc) :
  approved (timestamps (merge (updateDataOf now u) d))
  = if decide (Updates.status u = Some OrderStatus.approved)
    then Some now else approved (timestamps d).
Proof. unfold updateDataOf. by destruct (Updates.status u) as [[] |]. Qed.

Lemma merge_rejected (now : Z) (u : Updates.t) (d : OrderDoc) :
  rejected (timestamps (merge (updateDataOf now u) d))
  = if decide (Updates.status u = Some OrderStatus.rejected)
    then Some now else rejected (timestamps d).
Proof. unfold updateDataOf. by destruct (Updates.status u) as [[] |]. Qed.

Lemma merge_completed (now : Z) (u : Updates.t) (d : OrderDoc) :
  completed (timestamps (merge (updateDataOf now u) d))
  = if decide (Updates.status u = Some OrderStatus.completed)
    then Some now else completed (timestamps d).
Proof. unfold updateDataOf. by destruct (Updates.status u) as [[] |]. Qed.

Create Rewrite HintDb merge.
#[local] Hint Rewrite merge_fields merge_updated merge_approved merge_rejected
  merge_completed : merge.

(** Exhibits the document stored after an [updateOrder] on a stored order,
    and describes it by the projections of the merge. *)
Ltac stored_after_update Hupd Hd :=
  rewrite (updateOrder_world _ _ _ _ _ Hupd Hd); cbn [orders counters with_orders];
  eexists; split; [apply lookup_insert_eq |]; autorewrite with merge.

Lemma updateOrderStatus_without_note (env : Env) (id : string) (st : OrderStatus.t)
    (notes : option string) :
  notes = None \/ notes = Some "" ->
  updateOrderStatus env id st notes
  = updateOrder env id (Updates.set_status st Updates.empty).
Proof. by intros [-> | ->]. Qed.

Lemma updateOrderStatus_rejected_note (env : Env) (id note : string) :
  note <> "" ->
  updateOrderStatus env id OrderStatus.rejected (Some note)
  = updateOrder env id
      (Updates.set_rejectionReason note (Updates.set_status OrderStatus.rejected Updates.empty)).
Proof. intros Hnote. unfold updateOrderStatus. by destruct note. Qed.

Lemma updateOrderStatus_other_note (env : Env) (id note : string) (st : OrderStatus.t) :
  note <> "" -> st <> OrderStatus.rejected ->
  updateOrderStatus env id st (Some note)
  = updateOrder env id (Updates.set_adminNotes note (Updates.set_status st Updates.empty)).
Proof.
  intros Hnote Hst. unfold updateOrderStatus. destruct note; [done |].
  cbn [truthy]. by rewrite decide_False.
Qed.

(** Whatever the note, the call is an [updateOrder] whose updates carry the
    target status. *)
Lemma updateOrderStatus_is_update (env : Env) (id : string) (st : OrderStatus.t)
    (notes : option string) :
  exists u, updateOrderStatus env id st notes = updateOrder env id u
            /\ Updates.status u = Some st.
Proof.
  unfold updateOrderStatus. destruct notes as [[| c note] |]; cbn [truthy]; eauto.
  destruct (decide (st = OrderStatus.rejected)); eauto.
Qed.

(** ** Claims about orders *)

(** C4, as the code has it. [createOrder] stores the status that its caller
    passes in [orderData]: the stored status is [submitted] exactly when the
    caller says so. A status transition stores its target status, [submitted]
    included. *)
Theorem created_status_is_the_callers (env : Env) (od : OrderData) (w : World) :
  txError env = None -> addDocError env = None ->
  (exists newId D,
      orders w !! newId = None
      /\ orders (createOrder env od w).2 = <[newId := D]> (orders w)
      /\ fields D = od
      /\ (status (fields D) = OrderStatus.submitted <-> status od = OrderStatus.submitted))
  /\ (forall (env' : Env) (id : string) (target : OrderStatus.t) (notes : option string)
             (w' : World) (d : OrderDoc),
        updateDocError env' = None -> orders w' !! id = Some d ->
        (status ∘ fields) <$> orders (updateOrderStatus env' id target notes w').2 !! id
        = Some target).
Proof.
  intros Htx Hadd. split.
  - rewrite (createOrder_commits env od w Htx Hadd). cbn [snd orders with_orders].
    eexists _, _. split; [apply fresh_string_fresh |].
    split; [reflexivity |]. by split.
  - intros env' id target notes w' d Hupd Hd.
    destruct (updateOrderStatus_is_update env' id target notes) as (u & -> & Hu).
    rewrite (updateOrder_world env' id u w' d Hupd Hd). cbn [orders with_orders].
    rewrite lookup_insert_eq. cbn [fmap option_fmap option_map compose].
    rewrite merge_fields. cbn [mergeFields status]. by rewrite Hu.
Qed.

Lemma created_status_is_the_callers_witness :
  (status ∘ fields ∘ doc) <$>
    (match (createOrder (env_at (utc_instant 2025 6 10 9 0))
              (sample_order OrderStatus.submitted) emptyWorld).1 with
     | Ok resp => data resp
     | Throw _ => None
     end) = Some OrderStatus.submitted
  /\ exists newId D,
      orders (createOrder (env_at (utc_instant 2025 6 10 9 0))
                (sample_order OrderStatus.submitted) emptyWorld).2
      = <[newId := D]> ∅
      /\ status (fields D) = OrderStatus.submitted.
Proof.
  split; [reflexivity |].
  destruct (created_status_is_the_callers (env_at (utc_instant 2025 6 10 9 0))
              (sample_order OrderStatus.submitted) emptyWorld eq_refl eq_refl)
    as [(newId & D & _ & Hstored & _ & Hst) _].
  exists newId, D. split; [exact Hstored |]. by apply Hst.
Defined.

(** C4 as stated fails: a caller that passes [completed] gets a [completed]
    order stored, and a transition to [submitted] stores [submitted]. *)
Lemma created_status_counterexample :
  let w1 := (createOrder (env_at (utc_instant 2025 6 10 9 0))
               (sample_order OrderStatus.completed) emptyWorld).2 in
  let w2 := (updateOrderStatus (env_at (utc_instant 2025 6 10 10 0)) "doc"
               OrderStatus.submitted None w1).2 in
  (status ∘ fields) <$> orders w1 !! "doc" = Some OrderStatus.completed
  /\ OrderStatus.completed <> OrderStatus.submitted
  /\ (status ∘ fields) <$> orders w2 !! "doc" = Some OrderStatus.submitted.
Proof. split; [by vm_compute |]. split; [discriminate | by vm_compute]. Qed.

(** C5, as the code has it. A call of [updateOrder] whose updates carry the
    status [approved], [rejected] or [completed] writes the time of that call
    under the matching timestamp, whatever was stored there before; the
    timestamps of the two other statuses keep their stored values. *)
Theorem status_timestamp_is_rewritten (env : Env) (id : string) (u : Updates.t)
    (w : World) (d : OrderDoc) :
  updateDocError env = None -> orders w !! id = Some d ->
  exists d',
    orders (updateOrder env id u w).2 !! id = Some d'
    /\ (Updates.status u = Some OrderStatus.approved ->
        approved (timestamps d') = Some (timestampNow env)
        /\ rejected (timestamps d') = rejected (timestamps d)
        /\ completed (timestamps d') = completed (timestamps d))
    /\ (Updates.status u = Some OrderStatus.rejected ->
        rejected (timestamps d') = Some (timestampNow env)
        /\ approved (timestamps d') = approved (timestamps d)
        /\ completed (timestamps d') = completed (timestamps d))
    /\ (Updates.status u = Some OrderStatus.completed ->
        completed (timestamps d') = Some (timestampNow env)
        /\ approved (timestamps d') = approved (timestamps d)
        /\ rejected (timestamps d') = rejected (timestamps d)).
Proof.
  intros Hupd Hd. stored_after_update Hupd Hd.
  split; [| split]; intros Hst; rewrite Hst; by repeat split.
Qed.

Lemma status_timestamp_is_rewritten_witness :
  let w1 := (createOrder (env_at 1000) (sample_order OrderStatus.submitted) emptyWorld).2 in
  let w2 := (updateOrderStatus (env_at 2000) "doc" OrderStatus.approved None w1).2 in
  exists d',
    orders (updateOrder (env_at 3000) "doc"
              (Updates.set_status OrderStatus.approved Updates.empty) w2).2 !! "doc" = Some d'
    /\ approved (timestamps d') = Some 3000.
Proof.
  intros w1 w2.
  assert (exists d, orders w2 !! "doc" = Some d) as [d Hd] by (by eexists; vm_compute).
  destruct (status_timestamp_is_rewritten (env_at 3000) "doc"
              (Updates.set_status OrderStatus.approved Updates.empty) w2 d eq_refl Hd)
    as (d' & Hstored & Happroved & _).
  exists d'. split; [exact Hstored |]. by apply Happroved.
Defined.

(** C5 as stated fails: an order approved at time 2000 and approved again at
    time 3000 has its [timestamps.approved] moved from 2000 to 3000. *)
Lemma status_timestamp_counterexample :
  let w1 := (createOrder (env_at 1000) (sample_order OrderStatus.submitted) emptyWorld).2 in
  let w2 := (updateOrderStatus (env_at 2000) "doc" OrderStatus.approved None w1).2 in
  let w3 := (updateOrderStatus (env_at 3000) "doc" OrderStatus.approved None w2).2 in
  (approved ∘ timestamps) <$> orders w2 !! "doc" = Some (Some 2000)
  /\ (approved ∘ timestamps) <$> orders w3 !! "doc" = Some (Some 3000)
  /\ (approved ∘ timestamps) <$> orders w3 !! "doc"
     <> (approved ∘ timestamps) <$> orders w2 !! "doc".
Proof. by vm_compute. Qed.

(** C6. When the counter transaction throws, [createOrder] returns a failure
    that carries the error and leaves the store as it was: no order is
    written. In every case the call either reports a failure and writes no
    order, or reports success and has written exactly one new order, which
    carries the identifier that the allocation returned. *)
Theorem no_order_without_allocated_id (env : Env) (od : OrderData) (w : World) (e : string) :
  txError env = Some e ->
  createOrder env od w =
    (Ok {| success := false; data := None; error := Some e;
           message := Some "Failed to create order" |}, w)
  /\ (forall (env' : Env) (od' : OrderData) (w' : World),
        exists resp,
          (createOrder env' od' w').1 = Ok resp
          /\ ((success resp = false /\ data resp = None
               /\ orders (createOrder env' od' w').2 = orders w')
              \/ (success resp = true
                  /\ exists newId oid,
                       (generateOrderId env' w').1 = Ok oid
                       /\ orders w' !! newId = None
                       /\ data resp
                          = Some {| id := newId;
                                    doc := createdDoc od' oid (timestampNow env') |}
                       /\ orders (createOrder env' od' w').2
                          = <[newId := createdDoc od' oid (timestampNow env')]> (orders w')))).
Proof.
  intros Htx. split; [apply (createOrder_allocation_fails env od w e Htx) |].
  intros env' od' w'.
  destruct (txError env') as [e1 |] eqn:Htx'.
  - rewrite (createOrder_allocation_fails env' od' w' e1 Htx'). eexists. split; [reflexivity |].
    left. by repeat split.
  - destruct (addDocError env') as [e2 |] eqn:Hadd.
    + rewrite (createOrder_addDoc_fails env' od' w' e2 Htx' Hadd).
      eexists. split; [reflexivity |]. left. repeat split. apply orders_after_allocation.
    + rewrite (createOrder_commits env' od' w' Htx' Hadd).
      eexists. split; [reflexivity |]. right. split; [reflexivity |].
      eexists _, _. rewrite (generateOrderId_commits env' w' Htx').
      split; [reflexivity |]. split; [apply fresh_string_fresh |]. by split.
Qed.

Lemma no_order_without_allocated_id_witness :
  createOrder (env_tx_failing 1000 "unavailable") (sample_order OrderStatus.submitted) emptyWorld
  = (Ok {| success := false; data := None; error := Some "unavailable";
           message := Some "Failed to create order" |}, emptyWorld).
Proof.
  apply (no_order_without_allocated_id (env_tx_failing 1000 "unavailable")
           (sample_order OrderStatus.submitted) emptyWorld "unavailable" eq_refl).
Defined.

(** C7. [updateOrder] on a stored order is a partial merge. The stored
    document gets [timestamps.updated] set to the time of the call and the
    timestamp of the target status ([approved], [rejected], [completed]) set
    to it as well; each key present in the updates takes its new value; every
    key absent from the updates, the [orderId], [timestamps.created] and the
    timestamps of the other statuses keep their stored values. No other
    order and no counter changes. *)
Theorem updateOrder_is_partial_merge (env : Env) (id : string) (u : Updates.t)
    (w : World) (d : OrderDoc) :
  updateDocError env = None -> orders w !! id = Some d ->
  let now := timestampNow env in
  let w' := (updateOrder env id u w).2 in
  exists d',
    orders w' !! id = Some d'
    /\ updated (timestamps d') = now
    /\ approved (timestamps d')
       = (if decide (Updates.status u = Some OrderStatus.approved)
          then Some now else approved (timestamps d))
    /\ rejected (timestamps d')
       = (if decide (Updates.status u = Some OrderStatus.rejected)
          then Some now else rejected (timestamps d))
    /\ completed (timestamps d')
       = (if decide (Updates.status u = Some OrderStatus.completed)
          then Some now else completed (timestamps d))
    /\ created (timestamps d') = created (timestamps d)
    /\ orderId d' = orderId d
    /\ (forall st, Updates.status u = Some st -> status (fields d') = st)
    /\ (Updates.exchangeId u = None -> exchangeId (fields d') = exchangeId (fields d))
    /\ (Updates.type u = None -> type (fields d') = type (fields d))
    /\ (Updates.status u = None -> status (fields d') = status (fields d))
    /\ (Updates.submittedAmount u = None ->
        submittedAmount (fields d') = submittedAmount (fields d))
    /\ (Updates.finalAmount u = None -> finalAmount (fields d') = finalAmount (fields d))
    /\ (Updates.commission u = None -> commission (fields d') = commission (fields d))
    /\ (Updates.cliqDetails u = None -> cliqDetails (fields d') = cliqDetails (fields d))
    /\ (Updates.recipientDetails u = None ->
        recipientDetails (fields d') = recipientDetails (fields d))
    /\ (Updates.bankUsed u = None -> bankUsed (fields d') = bankUsed (fields d))
    /\ (Updates.platformBankUsed u = None ->
        platformBankUsed (fields d') = platformBankUsed (fields d))
    /\ (Updates.screenshots u = None -> screenshots (fields d') = screenshots (fields d))
    /\ (Updates.adminNotes u = None -> adminNotes (fields d') = adminNotes (fields d))
    /\ (Updates.rejectionReason u = None ->
        rejectionReason (fields d') = rejectionReason (fields d))
    /\ (Updates.senderName u = None -> senderName (fields d') = senderName (fields d))
    /\ (forall id', id' <> id -> orders w' !! id' = orders w !! id')
    /\ counters w' = counters w.
Proof.
  intros Hupd Hd now w'. subst w'.
  stored_after_update Hupd Hd.
  do 6 (split; [reflexivity |]).
  split; [intros st Hst; cbn; by rewrite Hst |].
  do 14 (split; [intros Hnone; cbn; by rewrite Hnone |]).
  split; [| reflexivity]. intros id' Hne. by rewrite lookup_insert_ne.
Qed.

Lemma updateOrder_is_partial_merge_witness :
  let w1 := (createOrder (env_at 1000) (sample_order OrderStatus.submitted) emptyWorld).2 in
  let w2 := (updateOrderStatus (env_at 2000) "doc" OrderStatus.approved None w1).2 in
  let w3 := (updateOrder (env_at 3000) "doc"
               (Updates.set_status OrderStatus.completed Updates.empty) w2).2 in
  exists d',
    orders w3 !! "doc" = Some d'
    /\ timestamps d' = {| created := 1000; updated := 3000; completed := Some 3000;
                          approved := Some 2000; rejected := None |}.
Proof.
  intros w1 w2 w3.
  assert (exists d, orders w2 !! "doc" = Some d
                    /\ created (timestamps d) = 1000
                    /\ approved (timestamps d) = Some 2000
                    /\ rejected (timestamps d) = None) as (d & Hd & Hc & Ha & Hr)
    by (by eexists; vm_compute).
  destruct (updateOrder_is_partial_merge (env_at 3000) "doc"
              (Updates.set_status OrderStatus.completed Updates.empty) w2 d eq_refl Hd)
    as (d' & Hstored & Hupdated & Happroved & Hrejected & Hcompleted & Hcreated & _).
  exists d'. split; [exact Hstored |].
  destruct d' as [f' o' [c' u' co' a' r']]. cbn in *. subst. by rewrite Hc, Ha, Hr.
Defined.

(** C8. With a note that is not empty, a transition to [rejected] stores the
    note as [rejectionReason] and keeps [adminNotes]; a transition to any
    other status stores it as [adminNotes] (and keeps [rejectionReason]). *)
Theorem note_goes_to_rejectionReason_or_adminNotes (env : Env) (id note : string)
    (target : OrderStatus.t) (w : World) (d : OrderDoc) :
  updateDocError env = None -> orders w !! id = Some d -> note <> "" ->
  exists d',
    orders (updateOrderStatus env id target (Some note) w).2 !! id = Some d'
    /\ (target = OrderStatus.rejected ->
        rejectionReason (fields d') = Some note
        /\ adminNotes (fields d') = adminNotes (fields d))
    /\ (target <> OrderStatus.rejected ->
        adminNotes (fields d') = Some note
        /\ rejectionReason (fields d') = rejectionReason (fields d)).
Proof.
  intros Hupd Hd Hnote.
  destruct (decide (target = OrderStatus.rejected)) as [-> | Hother].
  - rewrite (updateOrderStatus_rejected_note env id note Hnote).
    stored_after_update Hupd Hd. by split.
  - rewrite (updateOrderStatus_other_note env id note target Hnote Hother).
    stored_after_update Hupd Hd. by split.
Qed.

Lemma note_goes_to_rejectionReason_or_adminNotes_witness :
  let w1 := (createOrder (env_at 1000) (sample_order OrderStatus.submitted) emptyWorld).2 in
  exists d',
    orders (updateOrderStatus (env_at 2000) "doc" OrderStatus.rejected
              (Some "wrong amount") w1).2 !! "doc" = Some d'
    /\ rejectionReason (fields d') = Some "wrong amount"
    /\ adminNotes (fields d') = None.
Proof.
  intros w1.
  assert (exists d, orders w1 !! "doc" = Some d /\ adminNotes (fields d) = None)
    as (d & Hd & Hnotes) by (by eexists; vm_compute).
  destruct (note_goes_to_rejectionReason_or_adminNotes (env_at 2000) "doc" "wrong amount"
              OrderStatus.rejected w1 d eq_refl Hd ltac:(discriminate))
    as (d' & Hstored & Hrej & _).
  exists d'. split; [exact Hstored |].
  destruct (Hrej eq_refl) as [Hr Ha]. split; [exact Hr | by rewrite Ha].
Defined.

(** C9. [updateOrderStatus] checks no adjacency: for a stored order in any
    status and any target status, when the store calls go through, the call
    reports success and the order is stored and returned with the target
    status. In particular an order just created as [submitted] goes straight
    to [completed], with no approval recorded. *)
Theorem any_transition_is_applied (env : Env) (docId : string)
    (current target : OrderStatus.t) (notes : option string) (w : World) (d : OrderDoc) :
  updateDocError env = None -> getDocError env = None ->
  orders w !! docId = Some d -> status (fields d) = current ->
  (exists d',
      (updateOrderStatus env docId target notes w).1
      = Ok {| success := true; data := Some {| id := docId; doc := d' |}; error := None;
              message := Some "Order updated successfully" |}
      /\ orders (updateOrderStatus env docId target notes w).2 !! docId = Some d'
      /\ status (fields d') = target)
  /\ (forall (env0 : Env) (od : OrderData) (w0 : World),
        txError env0 = None -> addDocError env0 = None ->
        status od = OrderStatus.submitted ->
        exists newId d0 d',
          (createOrder env0 od w0).1
          = Ok {| success := true; data := Some {| id := newId; doc := d0 |}; error := None;
                  message := Some "Order created successfully" |}
          /\ status (fields d0) = OrderStatus.submitted
          /\ (updateOrderStatus env newId OrderStatus.completed None
                (createOrder env0 od w0).2).1
             = Ok {| success := true; data := Some {| id := newId; doc := d' |};
                     error := None; message := Some "Order updated successfully" |}
          /\ status (fields d') = OrderStatus.completed
          /\ completed (timestamps d') = Some (timestampNow env)
          /\ approved (timestamps d') = None).
Proof.
  intros Hupd Hget Hd _. split.
  - destruct (updateOrderStatus_is_update env docId target notes) as (u & -> & Hu).
    rewrite (updateOrder_result env docId u w d Hupd Hd Hget).
    rewrite (updateOrder_world env docId u w d Hupd Hd). cbn [orders with_orders].
    eexists. split; [reflexivity |]. split; [apply lookup_insert_eq |].
    rewrite merge_fields. cbn. by rewrite Hu.
  - intros env0 od w0 Htx Hadd Hsub.
    rewrite (createOrder_commits env0 od w0 Htx Hadd). cbn [fst snd].
    eexists _, _, _. split; [reflexivity |]. split; [exact Hsub |].
    rewrite (updateOrderStatus_without_note env _ OrderStatus.completed None) by by left.
    erewrite updateOrder_result; [| done | apply lookup_insert_eq | done].
    split; [reflexivity |]. by repeat split.
Qed.

Lemma any_transition_is_applied_witness :
  let w1 := (createOrder (env_at 1000) (sample_order OrderStatus.submitted) emptyWorld).2 in
  exists d',
    orders (updateOrderStatus (env_at 2000) "doc" OrderStatus.completed None w1).2 !! "doc"
    = Some d'
    /\ status (fields d') = OrderStatus.completed.
Proof.
  intros w1.
  assert (exists d, orders w1 !! "doc" = Some d) as (d & Hd) by (by eexists; vm_compute).
  destruct (any_transition_is_applied (env_at 2000) "doc" (status (fields d))
              OrderStatus.completed None w1 d eq_refl eq_refl Hd eq_refl)
    as [(d' & _ & Hstored & Hstatus) _].
  by exists d'.
Defined.

(** C10. An empty note is dropped: the call does what the call without a note
    does, so for any target status, [rejected] included, the stored
    [rejectionReason] and [adminNotes] stay as they were. *)
Theorem empty_note_is_dropped (env : Env) (docId : string) (target : OrderStatus.t)
    (w : World) (d : OrderDoc) :
  updateDocError env = None -> orders w !! docId = Some d ->
  updateOrderStatus env docId target (Some "") w = updateOrderStatus env docId target None w
  /\ exists d',
       orders (updateOrderStatus env docId target (Some "") w).2 !! docId = Some d'
       /\ rejectionReason (fields d') = rejectionReason (fields d)
       /\ adminNotes (fields d') = adminNotes (fields d).
Proof.
  intros Hupd Hd. split; [reflexivity |].
  rewrite (updateOrderStatus_without_note env docId target (Some "")) by by right.
  stored_after_update Hupd Hd. by split.
Qed.

Lemma empty_note_is_dropped_witness :
  let w1 := (createOrder (env_at 1000) (sample_order OrderStatus.submitted) emptyWorld).2 in
  exists d',
    orders (updateOrderStatus (env_at 2000) "doc" OrderStatus.rejected (Some "") w1).2 !! "doc"
    = Some d'
    /\ rejectionReason (fields d') = None /\ adminNotes (fields d') = None.
Proof.
  intros w1.
  assert (exists d, orders w1 !! "doc" = Some d
                    /\ rejectionReason (fields d) = None /\ adminNotes (fields d) = None)
    as (d & Hd & Hr & Ha) by (by eexists; vm_compute).
  destruct (empty_note_is_dropped (env_at 2000) "doc" OrderStatus.rejected w1 d eq_refl Hd)
    as [_ (d' & Hstored & Hr' & Ha')].
  exists d'. split; [exact Hstored |]. by rewrite Hr', Ha'.
Defined.

(** ** Runs of the service: order identifiers stay unique *)

Lemma app_inj_same_length (a a' b b' : string) :
  String.length a = String.length a' -> a +:+ b = a' +:+ b' -> a = a' /\ b = b'.
Proof.
  revert a'. induction a as [| c a IH]; intros [| c' a'] Hlen Heq; try discriminate.
  - by split.
  - rewrite !app_cons in Heq. injection Heq as -> Heq. injection Hlen as Hlen.
    destruct (IH a' Hlen Heq) as [-> ->]. by split.
Qed.

Lemma monthKey_length (env : Env) :
  10 <= getFullYear (getJordanTime env) -> String.length (monthKey env) = 4%nat.
Proof.
  intros Hy. unfold monthKey.
  by rewrite string_app_length, yearDigits_length, monthDigits_length.
Qed.

Lemma counterValue_after_ge (env : Env) (w : World) (key : string) :
  counterValue w key <= counterValue (generateOrderId env w).2 key.
Proof.
  destruct (txError env) as [e |] eqn:He.
  - rewrite (generateOrderId_throws env w e He). simpl. lia.
  - destruct (decide (key = counterKey env)) as [-> | Hne].
    + rewrite (counterValue_after_same env w He). lia.
    + unfold counterValue. rewrite counters_after_other by done. lia.
Qed.

Lemma store_ok_empty : store_ok emptyWorld.
Proof.
  split; [| split].
  - intros id1 id2 d1 d2 H. cbn in H. by rewrite lookup_empty in H.
  - intros id0 d H. cbn in H. by rewrite lookup_empty in H.
  - intros key. unfold counterValue. cbn. by rewrite lookup_empty.
Qed.

(** An allocation alone keeps the store well formed. *)
Lemma store_ok_after_allocation (env : Env) (w : World) :
  store_ok w -> store_ok (generateOrderId env w).2.
Proof.
  intros (Huniq & Hbelow & Hnonneg). split; [| split].
  - intros id1 id2 d1 d2. rewrite orders_after_allocation. apply Huniq.
  - intros id0 d. rewrite orders_after_allocation. intros Hd.
    destruct (Hbelow id0 d Hd) as (mk & c & Hlen & Hid & Hc).
    exists mk, c. split; [done |]. split; [done |].
    pose proof (counterValue_after_ge env w ("orders_" +:+ mk)). lia.
  - intros key. pose proof (counterValue_after_ge env w key). specialize (Hnonneg key). lia.
Qed.

Lemma store_ok_createOrder (env : Env) (od : OrderData) (w : World) :
  10 <= getFullYear (getJordanTime env) ->
  store_ok w -> store_ok (createOrder env od w).2.
Proof.
  intros Hyear Hok.
  destruct (txError env) as [e |] eqn:Htx.
  { by rewrite (createOrder_allocation_fails env od w e Htx). }
  destruct (addDocError env) as [e |] eqn:Hadd.
  { rewrite (createOrder_addDoc_fails env od w e Htx Hadd). cbn [snd].
    by apply store_ok_after_allocation. }
  rewrite (createOrder_commits env od w Htx Hadd). cbn [snd].
  pose proof (store_ok_after_allocation env w Hok) as (Huniq & Hbelow & Hnonneg).
  destruct Hok as (_ & Hbelow0 & Hnonneg0).
  set (newId := fresh_string "doc" (orders w)).
  set (c := counterValue w (counterKey env) + 1).
  assert (orders w !! newId = None) as Hfresh by apply fresh_string_fresh.
  assert (forall id0 d, orders w !! id0 = Some d ->
            orderId d <> formatOrderId env c) as Hnew.
  { intros id0 d Hd Heq.
    destruct (Hbelow0 id0 d Hd) as (mk & c0 & Hlen & Hid & Hc0).
    rewrite Hid, formatOrderId_monthKey in Heq.
    apply (inj (String.app "T")) in Heq.
    apply app_inj_same_length in Heq as [-> Hseq];
      [| by rewrite Hlen, monthKey_length].
    apply sequence_inj in Hseq; [| lia | specialize (Hnonneg0 (counterKey env)); lia].
    fold (counterKey env) in Hc0. lia. }
  split; [| split].
  - intros id1 id2 d1 d2. cbn [orders with_orders].
    rewrite !lookup_insert. repeat case_decide; subst; intros H1 H2 Heq; try done.
    + injection H1 as <-. exfalso. eapply Hnew; [exact H2 |]. by rewrite <- Heq.
    + injection H2 as <-. exfalso. eapply Hnew; [exact H1 |]. by rewrite Heq.
    + eapply Huniq; [| | exact Heq]; by rewrite orders_after_allocation.
  - intros id0 d. cbn [orders with_orders]. rewrite lookup_insert.
    case_decide; subst.
    + intros [= <-]. exists (monthKey env), c. split; [by apply monthKey_length |].
      split; [apply formatOrderId_monthKey |].
      change (counterValue _ ("orders_" +:+ monthKey env))
        with (counterValue (generateOrderId env w).2 (counterKey env)).
      rewrite (counterValue_after_same env w Htx).
      specialize (Hnonneg0 (counterKey env)). unfold c. lia.
    + intros Hd. apply (Hbelow id0 d). by rewrite orders_after_allocation.
  - exact Hnonneg.
Qed.

(** What [updateOrder] leaves in the store is what its [updateDoc] leaves. *)
Lemma updateOrder_world_updateDoc (env : Env) (docId : string) (u : Updates.t) (w : World) :
  (updateOrder env docId u w).2
  = (updateDoc env docId (updateDataOf (timestampNow env) u) w).2.
Proof.
  unfold updateOrder. rewrite try_catch_ret_world. cbv zeta.
  rewrite bind_world; [reflexivity |].
  intros _ w'. rewrite bind_world; [apply getOrderById_world |].
  intros result w''. by destruct (success result), (data result) as [[order |] |].
Qed.

Lemma updateOrder_world_cases (env : Env) (docId : string) (u : Updates.t) (w : World) :
  (updateOrder env docId u w).2 = w
  \/ exists d,
       orders w !! docId = Some d
       /\ (updateOrder env docId u w).2
          = with_orders (<[docId := merge (updateDataOf (timestampNow env) u) d]> (orders w)) w.
Proof.
  rewrite updateOrder_world_updateDoc. unfold updateDoc.
  destruct (updateDocError env); [by left |].
  destruct (orders w !! docId) as [d |] eqn:Hd; [right; by exists d | by left].
Qed.

Lemma store_ok_updateOrder (env : Env) (docId : string) (u : Updates.t) (w : World) :
  store_ok w -> store_ok (updateOrder env docId u w).2.
Proof.
  intros Hok. destruct (updateOrder_world_cases env docId u w) as [-> | (d & Hd & ->)];
    [done |].
  destruct Hok as (Huniq & Hbelow & Hnonneg).
  assert (forall id0 d0,
            <[docId := merge (updateDataOf (timestampNow env) u) d]> (orders w) !! id0 = Some d0 ->
            exists d1, orders w !! id0 = Some d1 /\ orderId d0 = orderId d1) as Hsame.
  { intros id0 d0. rewrite lookup_insert. case_decide; subst.
    - intros [= <-]. by exists d.
    - intros H0. by exists d0. }
  split; [| split].
  - intros id1 id2 d1 d2 H1 H2 Heq. cbn [orders with_orders] in H1, H2.
    apply Hsame in H1 as (e1 & H1 & E1). apply Hsame in H2 as (e2 & H2 & E2).
    apply (Huniq id1 id2 e1 e2 H1 H2). congruence.
  - intros id0 d0 H0. cbn [orders with_orders] in H0.
    apply Hsame in H0 as (e0 & H0 & E0). rewrite E0. by apply (Hbelow id0).
  - exact Hnonneg.
Qed.

Lemma deleteOrder_world (qe : QueryEnv) (docId : string) (w : World) :
  (deleteOrder qe docId w).2
  = match deleteDocError qe with
    | Some _ => w
    | None => with_orders (delete docId (orders w)) w
    end.
Proof.
  unfold deleteOrder. rewrite try_catch_ret_world. cbv zeta.
  rewrite bind_world by done. unfold deleteDoc. by destruct (deleteDocError qe).
Qed.

Lemma store_ok_deleteOrder (qe : QueryEnv) (docId : string) (w : World) :
  store_ok w -> store_ok (deleteOrder qe docId w).2.
Proof.
  intros Hok. rewrite deleteOrder_world. destruct (deleteDocError qe); [done |].
  destruct Hok as (Huniq & Hbelow & Hnonneg). split; [| split].
  - intros id1 id2 d1 d2 H1 H2. cbn [orders with_orders] in H1, H2.
    apply lookup_delete_Some in H1 as [_ H1]. apply lookup_delete_Some in H2 as [_ H2].
    by apply Huniq.
  - intros id0 d0 H0. cbn [orders with_orders] in H0.
    apply lookup_delete_Some in H0 as [_ H0]. by apply (Hbelow id0).
  - exact Hnonneg.
Qed.

Lemma store_ok_step (o : Op) (w : World) :
  created_from_year_10 o -> store_ok w -> store_ok (step w o).
Proof.
  destruct o as [env od | env docId u | env docId st notes | qe docId]; cbn [step];
    intros Hyear Hok.
  - by apply store_ok_createOrder.
  - by apply store_ok_updateOrder.
  - destruct (updateOrderStatus_is_update env docId st notes) as (u & -> & _).
    by apply store_ok_updateOrder.
  - by apply store_ok_deleteOrder.
Qed.

Lemma store_ok_run (ops : list Op) (w : World) :
  Forall created_from_year_10 ops -> store_ok w -> store_ok (run ops w).
Proof.
  unfold run. revert w. induction ops as [| o ops IH]; intros w Hyears Hok; [done |].
  apply Forall_cons in Hyears as [Ho Hyears]. cbn [foldl].
  apply IH; [done |]. by apply store_ok_step.
Qed.

(** X1. Whatever calls of [createOrder], [updateOrder], [updateOrderStatus]
    and [deleteOrder] are made one after the other on an empty store, with
    whatever store failures, and as long as the orders are created in years
    of two digits or more: no two stored orders carry the same [orderId],
    also after deletions, and every stored [orderId] is [T], a four-character
    month and a sequence number between 1 and that month's counter. *)
Theorem order_ids_stay_unique (ops : list Op) :
  Forall created_from_year_10 ops ->
  unique_orderIds (run ops emptyWorld) /\ ids_below_counters (run ops emptyWorld).
Proof.
  intros Hyears.
  destruct (store_ok_run ops emptyWorld Hyears store_ok_empty) as (Huniq & Hbelow & _).
  by split.
Qed.

(** ** Queries *)

#[local] Instance created_desc_total : Total created_desc.
Proof.
  intros p q. unfold created_desc.
  destruct (Z.lt_trichotomy (created (timestamps p.2)) (created (timestamps q.2)))
    as [Hlt | [Heq | Hgt]]; [right; by left | | left; by left].
  destruct (total String.le p.1 q.1); [right | left]; right; by split.
Qed.

#[local] Instance created_desc_trans : Transitive created_desc.
Proof.
  intros p q r [Hpq | [Epq Lpq]] [Hqr | [Eqr Lqr]]; unfold created_desc.
  - left. lia.
  - left. lia.
  - left. lia.
  - right. split; [lia |]. by etrans.
Qed.

#[local] Instance id_asc_total : Total id_asc.
Proof. intros p q. unfold id_asc. apply (total String.le). Qed.

Section query.

Context (cs : list QueryConstraint) (docs : gmap string OrderDoc).

(** A query returns only stored documents that pass every constraint, each
    at most once. *)
Lemma runQuery_sound (p : string * OrderDoc) :
  p ∈ runQuery cs docs ->
  docs !! p.1 = Some p.2 /\ forallb (fun c => passes c p.2) cs = true.
Proof.
  unfold runQuery. intros Hp.
  assert (p ∈ filter (fun p : string * OrderDoc => forallb (fun c => passes c p.2) cs)
                     (map_to_list docs)) as Hin.
  { destruct (limit_of cs) as [n |]; [apply subseteq_take in Hp |];
      destruct (existsb is_orderBy cs); by rewrite merge_sort_Permutation in Hp. }
  apply list_elem_of_filter in Hin as [Hpass Hin]. split.
  - destruct p as [i d]. by apply elem_of_map_to_list.
  - by apply Is_true_true.
Qed.

Lemma runQuery_NoDup : NoDup (runQuery cs docs).
Proof.
  unfold runQuery.
  assert (NoDup (filter (fun p : string * OrderDoc => forallb (fun c => passes c p.2) cs)
                        (map_to_list docs))) as Hnd
    by apply NoDup_filter, NoDup_map_to_list.
  destruct (limit_of cs) as [n |]; [eapply sublist_NoDup; [| apply sublist_take] |];
    destruct (existsb is_orderBy cs); by rewrite merge_sort_Permutation.
Qed.

(** Without a limit it returns all of them. *)
Lemma runQuery_complete (p : string * OrderDoc) :
  limit_of cs = None ->
  docs !! p.1 = Some p.2 -> forallb (fun c => passes c p.2) cs = true ->
  p ∈ runQuery cs docs.
Proof.
  intros Hlim Hstored Hpass. unfold runQuery. rewrite Hlim.
  assert (p ∈ filter (fun p : string * OrderDoc => forallb (fun c => passes c p.2) cs)
                     (map_to_list docs)) as Hin.
  { apply list_elem_of_filter. split; [by apply Is_true_true |].
    destruct p as [i d]. by apply elem_of_map_to_list. }
  destruct (existsb is_orderBy cs); by rewrite merge_sort_Permutation.
Qed.

End query.

(** ** Reading orders back *)

(** X2. An order that [createOrder] reports as created is read back by
    [getOrderById] under the identifier it was given: the same [Order], with
    the allocated [orderId], the caller's data and both timestamps at the
    creation time. *)
Theorem created_order_is_read_back (env env' : Env) (od : OrderData) (w : World) :
  txError env = None -> addDocError env = None -> getDocError env' = None ->
  exists o : Order,
    (createOrder env od w).1
    = Ok {| success := true; data := Some o; error := None;
            message := Some "Order created successfully" |}
    /\ getOrderById env' (id o) (createOrder env od w).2
       = (Ok {| success := true; data := Some (Some o); error := None; message := None |},
          (createOrder env od w).2)
    /\ fields (doc o) = od
    /\ (generateOrderId env w).1 = Ok (orderId (doc o))
    /\ created (timestamps (doc o)) = timestampNow env
    /\ updated (timestamps (doc o)) = timestampNow env.
Proof.
  intros Htx Hadd Hget. rewrite (createOrder_commits env od w Htx Hadd). cbn [fst snd].
  eexists. split; [reflexivity |]. split.
  - unfold getOrderById, try_catch, mbind, M_bind, getDoc. rewrite Hget.
    cbn [orders with_orders id]. by rewrite lookup_insert_eq.
  - rewrite (generateOrderId_commits env w Htx). by repeat split.
Qed.

Lemma created_order_is_read_back_witness :
  let env := env_at (utc_instant 2025 6 10 9 0) in
  let w1 := (createOrder env (sample_order OrderStatus.submitted) emptyWorld).2 in
  exists o : Order,
    (getOrderById env (id o) w1).1
    = Ok {| success := true; data := Some (Some o); error := None; message := None |}
    /\ orderId (doc o) = "T25060001".
Proof.
  intros env w1.
  destruct (created_order_is_read_back env env (sample_order OrderStatus.submitted)
              emptyWorld eq_refl eq_refl eq_refl) as (o & _ & Hread & _ & Hid & _).
  exists o. fold w1 in Hread. rewrite Hread. split; [reflexivity |].
  assert ((generateOrderId env emptyWorld).1 = Ok "T25060001") as Hgen by reflexivity.
  rewrite Hgen in Hid. congruence.
Defined.

(** X3. [getOrderById] never throws and never writes. For an identifier that
    the store does not hold it reports success with [data: null] and the
    message [Order not found]; when [getDoc] throws it reports a failure that
    carries the error. *)
Theorem getOrderById_missing_or_failing (env : Env) (docId : string) (w : World) :
  (orders w !! docId = None -> getDocError env = None ->
   getOrderById env docId w
   = (Ok {| success := true; data := Some None; error := None;
            message := Some "Order not found" |}, w))
  /\ (forall e, getDocError env = Some e ->
      getOrderById env docId w
      = (Ok {| success := false; data := None; error := Some e;
               message := Some "Failed to fetch order" |}, w))
  /\ (exists resp, getOrderById env docId w = (Ok resp, w)).
Proof.
  unfold getOrderById, try_catch, mbind, M_bind, getDoc. split; [| split].
  - intros Hnone Hget. by rewrite Hget, Hnone.
  - intros e He. by rewrite He.
  - destruct (getDocError env); [eauto |]. destruct (orders w !! docId); eauto.
Qed.

Lemma getOrderById_missing_or_failing_witness :
  getOrderById (env_at 0) "nowhere" emptyWorld
  = (Ok {| success := true; data := Some None; error := None;
           message := Some "Order not found" |}, emptyWorld).
Proof.
  destruct (getOrderById_missing_or_failing (env_at 0) "nowhere" emptyWorld)
    as [Hmissing _].
  apply Hmissing; reflexivity.
Defined.

Lemma runQuery_limit_1 (oid : string) (docs : gmap string OrderDoc) :
  runQuery [where_orderId_eq oid; limit 1] docs
  = take 1 (runQuery [where_orderId_eq oid] docs).
Proof. reflexivity. Qed.

(** X4. [getOrderByOrderId] returns a stored order that carries the
    [orderId] asked for, or [data: null] when no stored order carries it; it
    never writes. When stored [orderId]s are unique (as they are after any
    run of the service, see X1), it returns the one order that carries it. *)
Theorem getOrderByOrderId_finds (qe : QueryEnv) (oid : string) (w : World) :
  getDocsError qe = None ->
  exists resp,
    getOrderByOrderId qe oid w = (Ok resp, w)
    /\ success resp = true
    /\ ((exists o, data resp = Some (Some o)
                   /\ orders w !! id o = Some (doc o) /\ orderId (doc o) = oid)
        \/ (data resp = Some None
            /\ forall i d, orders w !! i = Some d -> orderId d <> oid))
    /\ (unique_orderIds w ->
        forall i d, orders w !! i = Some d -> orderId d = oid ->
                    data resp = Some (Some {| id := i; doc := d |})).
Proof.
  intros Hget. unfold getOrderByOrderId, try_catch, mbind, M_bind, getDocs.
  rewrite Hget, runQuery_limit_1.
  pose proof (runQuery_sound [where_orderId_eq oid] (orders w)) as Hsound.
  pose proof (runQuery_complete [where_orderId_eq oid] (orders w)) as Hcomplete.
  assert (forall p : string * OrderDoc,
            forallb (fun c => passes c p.2) [where_orderId_eq oid] = true
            <-> orderId p.2 = oid) as Hpass.
  { intros p. cbn. rewrite andb_true_r. apply bool_decide_eq_true. }
  destruct (runQuery [where_orderId_eq oid] (orders w)) as [| p rest].
  - eexists. split; [reflexivity |]. split; [reflexivity |]. split.
    + right. split; [reflexivity |]. intros i d Hd Hoid.
      assert ((i, d) ∈ @nil (string * OrderDoc)) as Hin
        by (apply Hcomplete; [done | done | by apply Hpass]).
      by apply not_elem_of_nil in Hin.
    + intros _ i d Hd Hoid.
      assert ((i, d) ∈ @nil (string * OrderDoc)) as Hin
        by (apply Hcomplete; [done | done | by apply Hpass]).
      by apply not_elem_of_nil in Hin.
  - cbn [take]. destruct (Hsound p) as [Hstored Hp]; [left |].
    apply Hpass in Hp.
    eexists. split; [reflexivity |]. split; [reflexivity |]. split.
    + left. by exists (orderOfSnapshot p).
    + intros Huniq i d Hd Hoid. cbn [data]. do 2 f_equal.
      assert (p.1 = i) as Hi by (apply (Huniq p.1 i p.2 d); congruence).
      destruct p as [i' d']. cbn in *. subst i'. unfold orderOfSnapshot. cbn. congruence.
Qed.

Lemma getOrderByOrderId_finds_witness :
  let env := env_at (utc_instant 2025 6 10 9 0) in
  let qe := query_env_ok in
  let w1 := (createOrder env (sample_order OrderStatus.submitted) emptyWorld).2 in
  let w2 := (createOrder env (sample_order OrderStatus.submitted) w1).2 in
  exists resp o,
    getOrderByOrderId qe "T25060002" w2 = (Ok resp, w2)
    /\ data resp = Some (Some o) /\ orderId (doc o) = "T25060002".
Proof.
  intros env qe w1 w2.
  destruct (getOrderByOrderId_finds qe "T25060002" w2 eq_refl)
    as (resp & Hcall & _ & [(o & Hdata & _ & Hoid) | [Hnull Hnone]] & _).
  - exists resp, o. split; [exact Hcall |]. split; [exact Hdata | exact Hoid].
  - exfalso. apply (Hnone "doc0" (createdDoc (sample_order OrderStatus.submitted)
                                   "T25060002" (utc_instant 2025 6 10 9 0))); by vm_compute.
Defined.

(** ** Deleting *)

(** X5. When [deleteDoc] goes through, [deleteOrder] reports success; the
    order is gone (reading it gives [data: null]), every other order and
    every counter is as before, and deleting again, or deleting an order that
    never existed, succeeds too and changes nothing. *)
Theorem deleteOrder_removes_only_that_order (qe : QueryEnv) (docId : string) (w : World) :
  deleteDocError qe = None ->
  let w' := (deleteOrder qe docId w).2 in
  (deleteOrder qe docId w).1
  = Ok {| success := true; data := None; error := None;
          message := Some "Order deleted successfully" |}
  /\ orders w' !! docId = None
  /\ (forall other, other <> docId -> orders w' !! other = orders w !! other)
  /\ counters w' = counters w
  /\ deleteOrder qe docId w'
     = (Ok {| success := true; data := None; error := None;
              message := Some "Order deleted successfully" |}, w')
  /\ (orders w !! docId = None -> w' = w)
  /\ (forall env, getDocError env = None ->
        (getOrderById env docId w').1
        = Ok {| success := true; data := Some None; error := None;
                message := Some "Order not found" |}).
Proof.
  intros Hdel w'. subst w'. rewrite deleteOrder_world, Hdel.
  assert (forall w0, deleteOrder qe docId w0
                     = (Ok {| success := true; data := None; error := None;
                              message := Some "Order deleted successfully" |},
                        with_orders (delete docId (orders w0)) w0)) as Hcall.
  { intros w0. unfold deleteOrder, try_catch, mbind, M_bind, deleteDoc. by rewrite Hdel. }
  split; [by rewrite Hcall |]. cbn [orders counters with_orders].
  split; [apply lookup_delete_eq |].
  split; [intros other Hne; by apply lookup_delete_ne |].
  split; [reflexivity |].
  split.
  - rewrite Hcall. f_equal. unfold with_orders. cbn [orders counters]. f_equal.
    apply delete_id, lookup_delete_eq.
  - split.
    + intros Hnone. destruct w as [cs os]. unfold with_orders. cbn in *. f_equal.
      by apply delete_id.
    + intros env Hget. unfold getOrderById, try_catch, mbind, M_bind, getDoc.
      rewrite Hget. cbn [orders with_orders]. by rewrite lookup_delete_eq.
Qed.

Lemma deleteOrder_removes_only_that_order_witness :
  let env := env_at (utc_instant 2025 6 10 9 0) in
  let qe := query_env_ok in
  let w1 := (createOrder env (sample_order OrderStatus.submitted) emptyWorld).2 in
  orders (deleteOrder qe "doc" w1).2 !! "doc" = None
  /\ counters (deleteOrder qe "doc" w1).2 = counters w1.
Proof.
  intros env qe w1.
  destruct (deleteOrder_removes_only_that_order qe "doc" w1 eq_refl)
    as (_ & Hgone & _ & Hcounters & _).
  by split.
Defined.

(** ** Listing orders *)

Lemma constraintsOf_shape (filters : option OrderFilters) :
  limit_of (constraintsOf filters) = None
  /\ existsb is_orderBy (constraintsOf filters) = true
  /\ (0 <? length (constraintsOf filters))%nat = true.
Proof.
  unfold constraintsOf.
  destruct (filters ≫= f_status) as [[| s st] |],
           (filters ≫= f_type) as [[| t ty] |],
           (filters ≫= f_exchangeId) as [[| c ex] |]; by cbn.
Qed.

Lemma passes_constraintsOf (filters : option OrderFilters) (d : OrderDoc) :
  forallb (fun c => passes c d) (constraintsOf filters) = true <-> accepts filters d.
Proof.
  unfold constraintsOf, accepts.
  destruct (filters ≫= f_status) as [[| s st] |],
           (filters ≫= f_type) as [[| t ty] |],
           (filters ≫= f_exchangeId) as [[| c ex] |];
    cbn [push_if truthy Nat.ltb Nat.leb length app forallb passes];
    rewrite ?andb_true_r, ?andb_true_iff, ?bool_decide_eq_true;
    (split;
     [ intros H; repeat split; intros l Heq Hne; try discriminate Heq;
       injection Heq as <-; try done; destruct_and?; done
     | intros (Hs & Ht & He); repeat split;
       first [ by apply Hs | by apply Ht | by apply He ] ]).
Qed.

Lemma orderOfSnapshot_inj : Inj (=) (=) orderOfSnapshot.
Proof. intros [i d] [i' d'] [= -> ->]. reflexivity. Qed.

Lemma StronglySorted_fmap_weaken {A B} (R : relation A) (R' : relation B) (f : A -> B)
    (l : list A) :
  (forall x y, R x y -> R' (f x) (f y)) ->
  StronglySorted R l -> StronglySorted R' (f <$> l).
Proof.
  intros Hweak. induction 1 as [| x l Hsorted IH Hall]; cbn; constructor; [exact IH |].
  apply Forall_fmap. eapply Forall_impl; [exact Hall |]. intros y. apply Hweak.
Qed.

(** The orders that [getOrders] returns when [getDocs] goes through. *)
Lemma getOrders_call (qe : QueryEnv) (filters : option OrderFilters) (w : World) :
  getDocsError qe = None ->
  getOrders qe filters w
  = (Ok {| success := true;
           data := Some (orderOfSnapshot <$> runQuery (constraintsOf filters) (orders w));
           error := None; message := None |}, w).
Proof.
  intros Hget. destruct (constraintsOf_shape filters) as (_ & _ & Hlen).
  unfold getOrders, try_catch, mbind, M_bind, getDocs. by rewrite Hget, Hlen.
Qed.

Lemma getOrders_result_elem_of (filters : option OrderFilters)
    (docs : gmap string OrderDoc) (o : Order) :
  o ∈ orderOfSnapshot <$> runQuery (constraintsOf filters) docs
  <-> docs !! id o = Some (doc o) /\ accepts filters (doc o).
Proof.
  destruct (constraintsOf_shape filters) as (Hlimit & _ & _).
  rewrite list_elem_of_fmap. split.
  - intros (p & -> & Hp). apply runQuery_sound in Hp as [Hstored Hpass].
    split; [exact Hstored |]. by apply passes_constraintsOf.
  - intros [Hstored Haccepts]. exists (id o, doc o). split; [by destruct o |].
    apply runQuery_complete; [exact Hlimit | exact Hstored |].
    by apply passes_constraintsOf.
Qed.

Lemma getOrders_result_NoDup (filters : option OrderFilters) (docs : gmap string OrderDoc) :
  NoDup (orderOfSnapshot <$> runQuery (constraintsOf filters) docs).
Proof. apply NoDup_fmap_2; [apply orderOfSnapshot_inj | apply runQuery_NoDup]. Qed.

Lemma getOrders_result_sorted (filters : option OrderFilters) (docs : gmap string OrderDoc) :
  StronglySorted newest_first (orderOfSnapshot <$> runQuery (constraintsOf filters) docs).
Proof.
  destruct (constraintsOf_shape filters) as (Hlimit & Horder & _).
  unfold runQuery. rewrite Hlimit, Horder.
  apply (StronglySorted_fmap_weaken created_desc); [| apply StronglySorted_merge_sort; apply _].
  intros p q [Hlt | [Heq _]]; unfold newest_first; cbn; lia.
Qed.

(** X6. When [getDocs] goes through, [getOrders] reports success and returns,
    each once and newest first, exactly the stored orders that the filters
    accept: the status and type lists count only when not empty, the exchange
    only when not empty, and [dateRange] and [searchTerm] are not looked at.
    The store is not written. *)
Theorem getOrders_returns_the_accepted_orders (qe : QueryEnv)
    (filters : option OrderFilters) (w : World) :
  getDocsError qe = None ->
  exists l : list Order,
    getOrders qe filters w
    = (Ok {| success := true; data := Some l; error := None; message := None |}, w)
    /\ NoDup l
    /\ (forall o, o ∈ l <-> orders w !! id o = Some (doc o) /\ accepts filters (doc o))
    /\ StronglySorted newest_first l.
Proof.
  intros Hget. rewrite (getOrders_call qe filters w Hget). eexists.
  split; [reflexivity |]. split; [apply getOrders_result_NoDup |].
  split; [intros o; apply getOrders_result_elem_of | apply getOrders_result_sorted].
Qed.

Lemma getOrders_returns_the_accepted_orders_witness :
  let w := run sample_run emptyWorld in
  exists l : list Order,
    (getOrders query_env_ok None w).1
    = Ok {| success := true; data := Some l; error := None; message := None |}
    /\ (orderId ∘ doc) <$> l = ["T25060004"; "T25060003"; "T25060002"].
Proof.
  intros w.
  destruct (getOrders_returns_the_accepted_orders query_env_ok None w eq_refl)
    as (l & Hcall & _).
  exists l. rewrite Hcall. split; [reflexivity |].
  assert ((getOrders query_env_ok None w).1
          = Ok {| success := true; data := Some l; error := None; message := None |})
    as Hfst by (by rewrite Hcall).
  vm_compute in Hfst. injection Hfst as <-. reflexivity.
Defined.

Lemma order_ids_stay_unique_witness :
  Forall created_from_year_10 sample_run
  /\ unique_orderIds (run sample_run emptyWorld).
Proof.
  assert (Forall created_from_year_10 sample_run) as Hyears
    by (repeat constructor; by vm_compute).
  split; [exact Hyears |]. apply (order_ids_stay_unique sample_run Hyears).
Defined.

(** X7. [getPendingOrders] returns, each once and newest first, exactly the
    stored orders whose status is [submitted] or [pending_review]; orders
    that are [approved] or [processing] are not among them. *)
Theorem getPendingOrders_returns_submitted_and_pending_review (qe : QueryEnv) (w : World) :
  getDocsError qe = None ->
  exists l : list Order,
    getPendingOrders qe w
    = (Ok {| success := true; data := Some l; error := None; message := None |}, w)
    /\ NoDup l
    /\ (forall o, o ∈ l <->
          orders w !! id o = Some (doc o)
          /\ (status (fields (doc o)) = OrderStatus.submitted
              \/ status (fields (doc o)) = OrderStatus.pending_review))
    /\ StronglySorted newest_first l.
Proof.
  intros Hget. unfold getPendingOrders. rewrite (getOrders_call qe _ w Hget). eexists.
  split; [reflexivity |]. split; [apply getOrders_result_NoDup |].
  split; [| apply getOrders_result_sorted].
  intros o. rewrite getOrders_result_elem_of. unfold accepts. cbn. split.
  - intros [Hstored (Hst & _ & _)]. split; [exact Hstored |].
    specialize (Hst _ eq_refl ltac:(discriminate)).
    rewrite !elem_of_cons in Hst. destruct Hst as [? | [? | Hnil]]; [by left | by right |].
    by apply not_elem_of_nil in Hnil.
  - intros [Hstored Hst]. split; [exact Hstored |]. split; [| by split].
    intros st [= <-] _. rewrite !elem_of_cons.
    destruct Hst as [Hst | Hst]; [by left | right; by left].
Qed.

Lemma getPendingOrders_returns_submitted_and_pending_review_witness :
  let w := run sample_run emptyWorld in
  exists l : list Order,
    (getPendingOrders query_env_ok w).1
    = Ok {| success := true; data := Some l; error := None; message := None |}
    /\ (orderId ∘ doc) <$> l = ["T25060004"; "T25060003"].
Proof.
  intros w.
  destruct (getPendingOrders_returns_submitted_and_pending_review query_env_ok w eq_refl)
    as (l & Hcall & _).
  exists l. rewrite Hcall. split; [reflexivity |].
  assert ((getPendingOrders query_env_ok w).1
          = Ok {| success := true; data := Some l; error := None; message := None |})
    as Hfst by (by rewrite Hcall).
  vm_compute in Hfst. injection Hfst as <-. reflexivity.
Defined.

(** X8. [getOrdersByExchange] with an exchange that is not the empty string
    returns exactly the stored orders of that exchange that the other
    filters accept. With the empty string as exchange, the exchange is not
    filtered on at all: the orders of every exchange are returned. *)
Theorem getOrdersByExchange_filters_on_the_exchange (qe : QueryEnv) (exchange : string)
    (filters : option OrderFilters) (w : World) :
  getDocsError qe = None ->
  let others :=
    Some {| f_status := filters ≫= f_status; f_type := filters ≫= f_type;
            f_dateRange := None; f_exchangeId := None; f_searchTerm := None |} in
  exists l : list Order,
    getOrdersByExchange qe exchange filters w
    = (Ok {| success := true; data := Some l; error := None; message := None |}, w)
    /\ (exchange <> "" ->
        forall o, o ∈ l <->
          orders w !! id o = Some (doc o)
          /\ exchangeId (fields (doc o)) = exchange
          /\ accepts others (doc o))
    /\ (exchange = "" ->
        forall o, o ∈ l <-> orders w !! id o = Some (doc o) /\ accepts others (doc o)).
Proof.
  intros Hget others. unfold getOrdersByExchange.
  rewrite (getOrders_call qe _ w Hget). eexists. split; [reflexivity |].
  split; intros Hex o; rewrite getOrders_result_elem_of; unfold accepts, others; cbn;
    (split; intros [Hstored Hacc]; split; [exact Hstored | | exact Hstored |]).
  - destruct Hacc as (Hst & Hty & Hexch). split; [by apply Hexch |].
    split; [exact Hst |]. split; [exact Hty | done].
  - destruct Hacc as (Hexch & Hst & Hty & _). split; [exact Hst |].
    split; [exact Hty |]. by intros ex [= <-] _.
  - destruct Hacc as (Hst & Hty & _). split; [exact Hst |]. split; [exact Hty | done].
  - destruct Hacc as (Hst & Hty & _). split; [exact Hst |]. split; [exact Hty |].
    intros ex [= <-] Hne. by subst exchange.
Qed.

Lemma getOrdersByExchange_filters_on_the_exchange_witness :
  let w := run sample_run emptyWorld in
  exists l : list Order,
    (getOrdersByExchange query_env_ok "" None w).1
    = Ok {| success := true; data := Some l; error := None; message := None |}
    /\ forall o, o ∈ l -> exchangeId (fields (doc o)) = "userId".
Proof.
  intros w.
  destruct (getOrdersByExchange_filters_on_the_exchange query_env_ok "" None w eq_refl)
    as (l & Hcall & _ & Hall).
  exists l. rewrite Hcall. split; [reflexivity |].
  intros o Ho. apply (Hall eq_refl) in Ho as [Hstored _].
  assert (forall i d, orders w !! i = Some d -> exchangeId (fields d) = "userId") as Hw.
  { intros i d Hd. apply elem_of_map_to_list in Hd.
    assert (Forall (fun p : string * OrderDoc => exchangeId (fields p.2) = "userId")
                   (map_to_list (orders w))) as Hforall
      by (vm_compute; repeat constructor).
    by apply (proj1 (Forall_forall _ _) Hforall (i, d)). }
  by apply (Hw (id o)).
Defined.

(** ** Failures half way *)

(** X9. When [updateDoc] goes through and the read-back [getDoc] throws,
    [updateOrder] reports a failure ([Failed to fetch updated order]) although
    the update has been applied: the stored order is the merged one. *)
Theorem updateOrder_failure_after_write (env : Env) (docId : string) (u : Updates.t)
    (w : World) (d : OrderDoc) (e : string) :
  updateDocError env = None -> getDocError env = Some e -> orders w !! docId = Some d ->
  (updateOrder env docId u w).1
  = Ok {| success := false; data := None; error := Some "Failed to fetch updated order";
          message := Some "Failed to update order" |}
  /\ orders (updateOrder env docId u w).2 !! docId
     = Some (merge (updateDataOf (timestampNow env) u) d)
  /\ updated (timestamps (merge (updateDataOf (timestampNow env) u) d)) = timestampNow env
  /\ forall st, Updates.status u = Some st ->
       status (fields (merge (updateDataOf (timestampNow env) u) d)) = st.
Proof.
  intros Hupd Hget Hd. split; [| split; [| split]].
  - unfold updateOrder, try_catch, mbind, M_bind, updateDoc, getOrderById, try_catch,
      mbind, M_bind, getDoc.
    by rewrite Hupd, Hd, Hget.
  - rewrite (updateOrder_world env docId u w d Hupd Hd). cbn [orders with_orders].
    apply lookup_insert_eq.
  - apply merge_updated.
  - intros st Hst. rewrite merge_fields. cbn. by rewrite Hst.
Qed.

Lemma updateOrder_failure_after_write_witness :
  let w1 := (createOrder (env_at 1000) (sample_order OrderStatus.submitted) emptyWorld).2 in
  let env := {| newDate := 2000; timestampNow := 2000; tzOffset := fun _ _ => 0;
                txError := None; addDocError := None; updateDocError := None;
                getDocError := Some "unavailable" |} in
  success <$> (match (updateOrder env "doc"
                        (Updates.set_status OrderStatus.approved Updates.empty) w1).1 with
               | Ok resp => Some resp
               | Throw _ => None
               end) = Some false
  /\ (status ∘ fields) <$>
       orders (updateOrder env "doc"
                 (Updates.set_status OrderStatus.approved Updates.empty) w1).2 !! "doc"
     = Some OrderStatus.approved.
Proof.
  intros w1 env.
  assert (exists d, orders w1 !! "doc" = Some d) as [d Hd] by (by eexists; vm_compute).
  destruct (updateOrder_failure_after_write env "doc"
              (Updates.set_status OrderStatus.approved Updates.empty) w1 d "unavailable"
              eq_refl eq_refl Hd) as (Hresp & Hstored & _ & Hstatus).
  rewrite Hresp, Hstored. split; [reflexivity |]. cbn [fmap option_fmap option_map compose].
  by rewrite (Hstatus OrderStatus.approved eq_refl).
Defined.

(** X10. When the allocation commits and [addDoc] throws, [createOrder]
    reports a failure and stores no order, but the sequence number stays
    used: the month's counter is one higher, and the next order created in
    that month skips the number. *)
Theorem failed_addDoc_uses_up_a_sequence_number (env env' : Env) (od od' : OrderData)
    (w : World) (e : string) :
  txError env = None -> addDocError env = Some e ->
  txError env' = None -> addDocError env' = None -> counterKey env' = counterKey env ->
  let w1 := (createOrder env od w).2 in
  (createOrder env od w).1
  = Ok {| success := false; data := None; error := Some e;
          message := Some "Failed to create order" |}
  /\ orders w1 = orders w
  /\ counterValue w1 (counterKey env) = counterValue w (counterKey env) + 1
  /\ exists o,
       (createOrder env' od' w1).1
       = Ok {| success := true; data := Some o; error := None;
               message := Some "Order created successfully" |}
       /\ orderId (doc o) = formatOrderId env' (counterValue w (counterKey env) + 2).
Proof.
  intros Htx Hadd Htx' Hadd' Hkey w1. subst w1.
  rewrite (createOrder_addDoc_fails env od w e Htx Hadd). cbn [fst snd].
  split; [reflexivity |]. split; [apply orders_after_allocation |].
  split; [apply (counterValue_after_same env w Htx) |].
  rewrite (createOrder_commits env' od' _ Htx' Hadd'). cbn [fst].
  eexists. split; [reflexivity |]. cbn [doc orderId createdDoc].
  rewrite Hkey, (counterValue_after_same env w Htx). f_equal. lia.
Qed.

Lemma failed_addDoc_uses_up_a_sequence_number_witness :
  let env := {| newDate := utc_instant 2025 6 10 9 0; timestampNow := 0;
                tzOffset := fun _ _ => 3 * 3600000;
                txError := None; addDocError := Some "unavailable"; updateDocError := None;
                getDocError := None |} in
  let w1 := (createOrder env (sample_order OrderStatus.submitted) emptyWorld).2 in
  exists o,
    (createOrder (env_at (utc_instant 2025 6 11 9 0))
       (sample_order OrderStatus.submitted) w1).1
    = Ok {| success := true; data := Some o; error := None;
            message := Some "Order created successfully" |}
    /\ orderId (doc o) = "T25060002".
Proof.
  intros env w1.
  destruct (failed_addDoc_uses_up_a_sequence_number env (env_at (utc_instant 2025 6 11 9 0))
              (sample_order OrderStatus.submitted) (sample_order OrderStatus.submitted)
              emptyWorld "unavailable" eq_refl eq_refl eq_refl eq_refl eq_refl)
    as (_ & _ & _ & o & Hcreated & Hid).
  exists o. split; [exact Hcreated |]. rewrite Hid. reflexivity.
Defined.

(** X11. [updateOrder] and [updateOrderStatus] never create and never remove
    a document, whatever the identifier, the updates and the store failures:
    the stored identifiers are the same before and after, no [orderId]
    changes, and the counters are untouched. In particular an update of an
    order that does not exist writes nothing. *)
Theorem updates_keep_the_set_of_orders (env : Env) (docId : string) (u : Updates.t)
    (target : OrderStatus.t) (notes : option string) (w : World) :
  let after w' :=
    dom (orders w') = dom (orders w)
    /\ (forall i d, orders w !! i = Some d ->
          exists d', orders w' !! i = Some d' /\ orderId d' = orderId d
                     /\ created (timestamps d') = created (timestamps d))
    /\ counters w' = counters w
    /\ (orders w !! docId = None -> w' = w) in
  after (updateOrder env docId u w).2
  /\ after (updateOrderStatus env docId target notes w).2.
Proof.
  intros after.
  assert (forall u0, after (updateOrder env docId u0 w).2) as Hany.
  { intros u0. unfold after.
    destruct (updateOrder_world_cases env docId u0 w) as [-> | (d & Hd & ->)].
    - repeat split; eauto.
    - cbn [orders counters with_orders]. split; [| split; [| split]].
      + apply dom_insert_lookup_L. by rewrite Hd.
      + intros i d0 Hd0. rewrite lookup_insert. case_decide; subst; [| eauto].
        rewrite Hd in Hd0. injection Hd0 as <-. eauto.
      + reflexivity.
      + intros Hnone. congruence. }
  split; [apply Hany |].
  destruct (updateOrderStatus_is_update env docId target notes) as (u0 & -> & _).
  apply Hany.
Qed.

(** ** Regular expressions: the matcher decides the language *)

Lemma app_eq_empty (a b : string) : a +:+ b = "" -> a = "" /\ b = "".
Proof. destruct a; [intros H; cbn in H; by subst | discriminate]. Qed.

Lemma nullable_spec (r : regex) : nullable r = true <-> lang r "".
Proof.
  split.
  - induction r as [| | p | r1 IH1 r2 IH2 | r1 IH1 r2 IH2 | r IH]; cbn; intros Hn;
      try discriminate.
    + constructor.
    + apply andb_prop in Hn as [H1 H2]. apply (lang_cat r1 r2 "" ""); auto.
    + apply orb_prop in Hn as [H1 | H2]; [apply lang_alt_l | apply lang_alt_r]; auto.
    + constructor.
  - remember "" as s eqn:Hs. induction 1 as
      [| p c Hp | r1 r2 s1 s2 H1 IH1 H2 IH2 | r1 r2 s H1 IH1 | r1 r2 s H2 IH2
       | r | r s1 s2 H1 IH1 H2 IH2]; cbn; try done.
    + apply app_eq_empty in Hs as [-> ->]. by rewrite IH1, IH2.
    + by rewrite IH1.
    + rewrite IH2 by done. apply orb_true_r.
Qed.

Lemma lang_cat_inv (r1 r2 : regex) (s : string) :
  lang (re_cat r1 r2) s -> exists s1 s2, s = s1 +:+ s2 /\ lang r1 s1 /\ lang r2 s2.
Proof. inversion 1; subst. eexists _, _. by repeat split. Qed.

Lemma lang_alt_inv (r1 r2 : regex) (s : string) :
  lang (re_alt r1 r2) s -> lang r1 s \/ lang r2 s.
Proof. inversion 1; subst; [by left | by right]. Qed.

Lemma lang_class_inv (p : ascii -> bool) (s : string) :
  lang (re_class p) s -> exists c, s = String c "" /\ p c = true.
Proof. inversion 1; subst. by eexists. Qed.

Lemma lang_eps_inv (s : string) : lang re_eps s -> s = "".
Proof. by inversion 1. Qed.

Lemma lang_star_cons_inv (r : regex) (c : ascii) (s : string) :
  lang (re_star r) (String c s) ->
  exists s1 s2, s = s1 +:+ s2 /\ lang r (String c s1) /\ lang (re_star r) s2.
Proof.
  remember (re_star r) as r0 eqn:Hr. remember (String c s) as s0 eqn:Hs.
  intros H. revert Hr Hs.
  induction H as
      [| p x Hp | r1 r2 s1 s2 H1 IH1 H2 IH2 | r1 r2 s0 H1 IH1 | r1 r2 s0 H2 IH2
       | r1 | r1 s1 s2 H1 IH1 H2 IH2]; intros Hr Hs; try discriminate.
  injection Hr as ->. destruct s1 as [| x s1].
  - apply IH2; [reflexivity | exact Hs].
  - rewrite app_cons in Hs. injection Hs as -> <-. by exists s1, s2.
Qed.

Lemma derive_spec (r : regex) (c : ascii) (s : string) :
  lang (derive c r) s <-> lang r (String c s).
Proof.
  revert s. induction r as [| | p | r1 IH1 r2 IH2 | r1 IH1 r2 IH2 | r IH]; intros s; cbn.
  - split; inversion 1.
  - split; inversion 1.
  - destruct (p c) eqn:Hp; split; inversion 1; subst.
    + by constructor.
    + constructor.
    + congruence.
  - assert (lang (re_cat (derive c r1) r2) s ->
            lang (re_cat r1 r2) (String c s)) as Hhead.
    { inversion 1; subst. rewrite <- app_cons. constructor; [by apply IH1 | done]. }
    assert (lang (re_cat r1 r2) (String c s) ->
            lang (re_cat (derive c r1) r2) s
            \/ (lang r1 "" /\ lang r2 (String c s))) as Hsplit.
    { intros H. apply lang_cat_inv in H as (s1 & s2 & Heq & H1 & H2).
      destruct s1 as [| x s1].
      - right. rewrite app_nil in Heq. subst. by split.
      - rewrite app_cons in Heq. injection Heq as <- ->. left.
        constructor; [by apply IH1 | done]. }
    destruct (nullable r1) eqn:Hn.
    + split.
      * inversion 1; subst; [by apply Hhead |].
        apply (lang_cat r1 r2 "" (String c s)); [by apply nullable_spec | by apply IH2].
      * intros H. apply Hsplit in H as [H | [_ H]];
          [by apply lang_alt_l | apply lang_alt_r; by apply IH2].
    + split; [exact Hhead |].
      intros H. apply Hsplit in H as [H | [H _]]; [done |].
      apply nullable_spec in H. congruence.
  - split.
    + inversion 1; subst; [apply lang_alt_l; by apply IH1 | apply lang_alt_r; by apply IH2].
    + inversion 1; subst; [apply lang_alt_l; by apply IH1 | apply lang_alt_r; by apply IH2].
  - split.
    + inversion 1; subst. rewrite <- app_cons. constructor; [by apply IH | done].
    + intros H. apply lang_star_cons_inv in H as (s1 & s2 & -> & H1 & H2).
      constructor; [by apply IH | done].
Qed.

(** The derivative matcher accepts exactly the strings of the language. *)
Lemma matches_spec (r : regex) (s : string) : matches r s = true <-> lang r s.
Proof.
  revert r. induction s as [| c s IH]; intros r; cbn.
  - apply nullable_spec.
  - rewrite IH. apply derive_spec.
Qed.

Lemma all_chars_app (p : ascii -> bool) (a b : string) :
  all_chars p (a +:+ b) = all_chars p a && all_chars p b.
Proof.
  induction a as [| c a IH]; [reflexivity |].
  rewrite app_cons. cbn. by rewrite IH, andb_assoc.
Qed.

Lemma lang_lit (w s : string) : lang (re_lit w) s <-> s = w.
Proof.
  revert s. induction w as [| c w IH]; intros s; cbn.
  - split; [apply lang_eps_inv | intros ->; constructor].
  - split.
    + intros H. apply lang_cat_inv in H as (s1 & s2 & -> & H1 & H2).
      apply lang_class_inv in H1 as (x & -> & Hx). apply bool_decide_eq_true in Hx as ->.
      apply IH in H2 as ->. reflexivity.
    + intros ->. apply (lang_cat _ _ (String c "") w); [| by apply IH].
      constructor. by apply bool_decide_eq_true.
Qed.

Lemma lang_repeat_class (n : nat) (p : ascii -> bool) (s : string) :
  lang (re_repeat n (re_class p)) s <-> String.length s = n /\ all_chars p s = true.
Proof.
  revert s. induction n as [| n IH]; intros s; cbn [re_repeat].
  - split.
    + intros H. apply lang_eps_inv in H as ->. by split.
    + intros [Hlen _]. destruct s; [constructor | discriminate].
  - split.
    + intros H. apply lang_cat_inv in H as (s1 & s2 & -> & H1 & H2).
      apply lang_class_inv in H1 as (c & -> & Hc). apply IH in H2 as [Hlen Hall].
      rewrite app_cons, app_nil. cbn. by rewrite Hlen, Hc, Hall.
    + intros [Hlen Hall]. destruct s as [| c s]; [discriminate |].
      cbn in Hlen, Hall. apply andb_prop in Hall as [Hc Hall].
      apply (lang_cat _ _ (String c "") s); [by constructor |].
      apply IH. split; [lia | done].
Qed.

Lemma lang_upto_class (n : nat) (p : ascii -> bool) (s : string) :
  lang (re_upto n (re_class p)) s <-> (String.length s <= n)%nat /\ all_chars p s = true.
Proof.
  revert s. induction n as [| n IH]; intros s; cbn [re_upto].
  - split.
    + intros H. apply lang_eps_inv in H as ->. split; [cbn; lia | done].
    + intros [Hlen _]. destruct s; [constructor | cbn in Hlen; lia].
  - split.
    + intros H. apply lang_alt_inv in H as [H | H].
      * apply lang_eps_inv in H as ->. split; [cbn; lia | done].
      * apply lang_cat_inv in H as (s1 & s2 & -> & H1 & H2).
        apply lang_class_inv in H1 as (c & -> & Hc). apply IH in H2 as [Hlen Hall].
        rewrite app_cons, app_nil. cbn. rewrite Hc, Hall. split; [lia | done].
    + intros [Hlen Hall]. destruct s as [| c s]; [apply lang_alt_l; constructor |].
      cbn in Hlen, Hall. apply andb_prop in Hall as [Hc Hall].
      apply lang_alt_r. apply (lang_cat _ _ (String c "") s); [by constructor |].
      apply IH. split; [lia | done].
Qed.

(** [[class]{m,n}] accepts the strings of [m] to [n] characters of the class. *)
Lemma lang_range_class (m n : nat) (p : ascii -> bool) (s : string) :
  (m <= n)%nat ->
  lang (re_range m n (re_class p)) s
  <-> (m <= String.length s <= n)%nat /\ all_chars p s = true.
Proof.
  intros Hmn. unfold re_range. split.
  - intros H. apply lang_cat_inv in H as (s1 & s2 & -> & H1 & H2).
    apply lang_repeat_class in H1 as [Hlen1 Hall1].
    apply lang_upto_class in H2 as [Hlen2 Hall2].
    rewrite string_app_length, all_chars_app, Hall1, Hall2. split; [lia | done].
  - revert s n Hmn. induction m as [| m IH]; intros s n Hmn [Hlen Hall].
    + apply (lang_cat _ _ "" s); [constructor |].
      apply lang_upto_class. split; [lia | done].
    + destruct s as [| c s]; [cbn in Hlen; lia |].
      cbn [String.length all_chars] in Hlen, Hall. apply andb_prop in Hall as [Hc Hall].
      destruct n as [| n]; [lia |].
      assert (m <= n)%nat as Hmn' by lia.
      assert (m <= String.length s <= n)%nat as Hlen' by lia.
      destruct (lang_cat_inv _ _ s (IH s n Hmn' (conj Hlen' Hall)))
        as (s1 & s2 & -> & H1 & H2).
      rewrite <- app_cons. apply lang_cat; [| exact H2].
      cbn [re_repeat]. apply (lang_cat _ _ (String c "") s1); [by constructor | exact H1].
Qed.

Lemma lang_star_any (s : string) : lang (re_star re_any) s.
Proof.
  induction s as [| c s IH]; [constructor |].
  apply (lang_star_cons _ (String c "") s); [by constructor | exact IH].
Qed.

(** An unanchored one-character pattern finds a character of the class
    anywhere in the string. *)
Lemma test_class (p : ascii -> bool) (s : string) :
  test (re_class p) s = true <-> some_char p s = true.
Proof.
  unfold test. rewrite matches_spec. split.
  - intros H. apply lang_cat_inv in H as (s1 & s2 & -> & _ & H).
    apply lang_cat_inv in H as (s3 & s4 & -> & H & _).
    apply lang_class_inv in H as (c & -> & Hc).
    induction s1 as [| x s1 IH]; [rewrite app_nil, app_cons; cbn; by rewrite Hc |].
    rewrite app_cons. cbn. rewrite IH. apply orb_true_r.
  - induction s as [| c s IH]; cbn; [discriminate |].
    intros H. apply orb_prop in H as [Hc | Hrest].
    + apply (lang_cat _ _ "" (String c s)); [constructor |].
      apply (lang_cat _ _ (String c "") s); [by constructor | apply lang_star_any].
    + apply IH in Hrest. apply lang_cat_inv in Hrest as (s1 & s2 & -> & _ & H2).
      rewrite <- app_cons. apply lang_cat; [apply lang_star_any | exact H2].
Qed.

(** ** Validation ([lib/auth.ts]) *)

(** X12. [validateUsername] accepts exactly the strings of 3 to 50
    characters that are all letters [a-z], [A-Z], digits, [_] or [-]. *)
Theorem validateUsername_accepts (username : string) :
  validateUsername username = true
  <-> (3 <= String.length username <= 50)%nat
      /\ all_chars is_username_char username = true.
Proof.
  unfold validateUsername, usernameRegex. rewrite matches_spec.
  apply lang_range_class. lia.
Qed.

Lemma validateUsername_accepts_witness :
  validateUsername "exchange_1" = true /\ validateUsername "ab" = false
  /\ validateUsername "amman exchange" = false.
Proof.
  split; [| split].
  - apply (proj2 (validateUsername_accepts "exchange_1")). split; [cbn; lia | reflexivity].
  - destruct (validateUsername "ab") eqn:Hv; [| reflexivity].
    apply (proj1 (validateUsername_accepts "ab")) in Hv as [Hlen _]. cbn in Hlen. lia.
  - destruct (validateUsername "amman exchange") eqn:Hv; [| reflexivity].
    by apply (proj1 (validateUsername_accepts "amman exchange")) in Hv as [_ Hall].
Defined.

(** X13. [validatePassword] accepts exactly the strings of 8 characters or
    more that hold a letter [a-z] or [A-Z] and a digit; there is no upper
    bound on the length and no other character is asked for or refused. *)
Theorem validatePassword_accepts (password : string) :
  validatePassword password = true
  <-> (8 <= String.length password)%nat
      /\ some_char is_letter password = true
      /\ some_char is_digit password = true.
Proof.
  unfold validatePassword. rewrite !andb_true_iff, !test_class, Nat.leb_le. tauto.
Qed.

Lemma validatePassword_accepts_witness :
  validatePassword "transfer2025" = true /\ validatePassword "12345678" = false.
Proof.
  split.
  - apply (proj2 (validatePassword_accepts "transfer2025")). split; [cbn; lia | by split].
  - destruct (validatePassword "12345678") eqn:Hv; [| reflexivity].
    by apply (proj1 (validatePassword_accepts "12345678")) in Hv as (_ & Hletter & _).
Defined.

(** ** Mobile numbers ([lib/utils.ts]) *)

Lemma removeAll_all_chars (p : ascii -> bool) (s : string) :
  all_chars (fun c => negb (p c)) (removeAll p s) = true.
Proof.
  induction s as [| c s IH]; [reflexivity |]. cbn.
  destruct (p c) eqn:Hc; [exact IH |]. cbn. by rewrite Hc, IH.
Qed.

Lemma removeAll_id (p : ascii -> bool) (s : string) :
  all_chars (fun c => negb (p c)) s = true -> removeAll p s = s.
Proof.
  induction s as [| c s IH]; [reflexivity |]. cbn. intros H.
  apply andb_prop in H as [Hc Hs]. apply negb_true_iff in Hc. by rewrite Hc, IH.
Qed.

Lemma all_chars_impl (p q : ascii -> bool) (s : string) :
  (forall c, p c = true -> q c = true) -> all_chars p s = true -> all_chars q s = true.
Proof.
  intros Hpq. induction s as [| c s IH]; [reflexivity |]. cbn. intros H.
  apply andb_prop in H as [Hc Hs]. by rewrite (Hpq c Hc), IH.
Qed.

Lemma digit_not_space_or_dash (c : ascii) :
  is_digit c = true -> negb (is_space_or_dash c) = true.
Proof. destruct c as [[] [] [] [] [] [] [] []]; by vm_compute. Qed.

Lemma is_789_digit (c : ascii) : is_789 c = true -> is_digit c = true.
Proof. destruct c as [[] [] [] [] [] [] [] []]; by vm_compute. Qed.

Lemma is_789_not_zero (c : ascii) : is_789 c = true -> c <> "0"%char.
Proof. intros H ->. by vm_compute in H. Qed.

Lemma substring_0_length (s : string) : String.substring 0 (String.length s) s = s.
Proof. induction s as [| c s IH]; [reflexivity |]. cbn. by rewrite IH. Qed.

Lemma slice_1_cons (c : ascii) (s : string) : slice (String c s) 1 = s.
Proof.
  unfold slice. cbn [String.length].
  replace (1 <? 0) with false by reflexivity.
  rewrite Z.min_l by lia.
  replace (Z.to_nat (Z.of_nat (S (String.length s)) - 1)) with (String.length s) by lia.
  change (Z.to_nat 1) with 1%nat. cbn [String.substring]. apply substring_0_length.
Qed.

Lemma startsWith_app (pre s : string) : startsWith (pre +:+ s) pre = true.
Proof.
  unfold startsWith. induction pre as [| c pre IH]; [by destruct s |].
  rewrite app_cons. cbn [String.prefix]. by destruct (ascii_dec c c).
Qed.

(** The numbers that [mobileRegex] accepts: [0] or [00962], then 7, 8 or 9,
    then eight digits. *)
Lemma mobileRegex_accepts (s : string) :
  matches mobileRegex s = true
  <-> exists c rest,
        is_789 c = true /\ String.length rest = 8%nat /\ all_chars is_digit rest = true
        /\ (s = "0" +:+ String c rest \/ s = "00962" +:+ String c rest).
Proof.
  rewrite matches_spec. unfold mobileRegex.
  assert (forall pre s0,
            lang (re_cat (re_lit pre)
                    (re_cat (re_class is_789) (re_repeat 8 (re_class is_digit)))) s0
            <-> exists c rest,
                  is_789 c = true /\ String.length rest = 8%nat
                  /\ all_chars is_digit rest = true /\ s0 = pre +:+ String c rest) as Hone.
  { intros pre s0. split.
    - intros H. apply lang_cat_inv in H as (s1 & s2 & -> & H1 & H2).
      apply lang_lit in H1 as ->.
      apply lang_cat_inv in H2 as (s3 & s4 & -> & H3 & H4).
      apply lang_class_inv in H3 as (c & -> & Hc).
      apply lang_repeat_class in H4 as [Hlen Hall]. by exists c, s4.
    - intros (c & rest & Hc & Hlen & Hall & ->).
      apply lang_cat; [by apply lang_lit |].
      apply (lang_cat _ _ (String c "") rest); [by constructor |].
      by apply lang_repeat_class. }
  split.
  - intros H. apply lang_alt_inv in H as [H | H]; apply Hone in H
      as (c & rest & Hc & Hlen & Hall & ->); exists c, rest; auto.
  - intros (c & rest & Hc & Hlen & Hall & [-> | ->]);
      [apply lang_alt_r | apply lang_alt_l]; apply Hone; by exists c, rest.
Qed.

(** X14. [validateJordanianMobile] accepts a string exactly when, with its
    white space and dashes removed, it is [0] or [00962], then 7, 8 or 9,
    then eight digits: ten or fourteen digits in all. *)
Theorem validateJordanianMobile_accepts (mobile : string) :
  validateJordanianMobile mobile = true
  <-> exists c rest,
        is_789 c = true /\ String.length rest = 8%nat /\ all_chars is_digit rest = true
        /\ (removeAll is_space_or_dash mobile = "0" +:+ String c rest
            \/ removeAll is_space_or_dash mobile = "00962" +:+ String c rest).
Proof. unfold validateJordanianMobile. apply mobileRegex_accepts. Qed.

Lemma digits_stay (s : string) :
  all_chars is_digit s = true -> removeAll is_space_or_dash s = s.
Proof.
  intros H. apply removeAll_id. revert H. apply all_chars_impl, digit_not_space_or_dash.
Qed.

(** X15. [formatJordanianMobile] brings both spellings of a number that
    [validateJordanianMobile] accepts to the same international form:
    [00962], the 7, 8 or 9, and the eight digits; that form has fourteen
    characters and is accepted in turn. On any string at all, formatting
    twice is formatting once. *)
Theorem formatJordanianMobile_normalises (mobile : string) :
  (validateJordanianMobile mobile = true ->
   exists c rest,
     is_789 c = true /\ String.length rest = 8%nat /\ all_chars is_digit rest = true
     /\ formatJordanianMobile mobile = "00962" +:+ String c rest
     /\ String.length (formatJordanianMobile mobile) = 14%nat
     /\ validateJordanianMobile (formatJordanianMobile mobile) = true)
  /\ formatJordanianMobile (formatJordanianMobile mobile) = formatJordanianMobile mobile.
Proof.
  split.
  - intros Hvalid. unfold validateJordanianMobile in Hvalid.
    apply mobileRegex_accepts in Hvalid as (c & rest & Hc & Hlen & Hall & Hclean).
    exists c, rest. split; [done |]. split; [done |]. split; [done |].
    assert (formatJordanianMobile mobile = "00962" +:+ String c rest) as Hfmt.
    { unfold formatJordanianMobile. destruct Hclean as [-> | ->].
      - assert (startsWith ("0" +:+ String c rest) "00962" = false) as ->.
        { unfold startsWith. rewrite app_cons, app_nil.
          destruct (String.prefix "00962" (String "0" (String c rest))) eqn:Hpre;
            [| reflexivity].
          apply String.prefix_correct in Hpre. cbn in Hpre. injection Hpre as -> _.
          by vm_compute in Hc. }
        replace (startsWith ("0" +:+ String c rest) "0") with true by reflexivity.
        change ("0" +:+ String c rest) with (String "0" (String c rest)).
        by rewrite slice_1_cons.
      - reflexivity. }
    split; [exact Hfmt |]. rewrite Hfmt. split.
    + rewrite string_app_length. cbn. by rewrite Hlen.
    + unfold validateJordanianMobile. apply mobileRegex_accepts. exists c, rest.
      split; [done |]. split; [done |]. split; [done |]. right.
      apply digits_stay. rewrite all_chars_app. cbn. by rewrite (is_789_digit c Hc), Hall.
  - assert (forall s, all_chars (fun c => negb (is_space_or_dash c)) s = true ->
                      startsWith s "00962" = true -> formatJordanianMobile s = s) as Hfix.
    { intros s Hs Hpre. unfold formatJordanianMobile. by rewrite (removeAll_id _ s Hs), Hpre. }
    unfold formatJordanianMobile at 2 3.
    pose proof (removeAll_all_chars is_space_or_dash mobile) as Hclean.
    destruct (removeAll is_space_or_dash mobile) as [| x tl] eqn:Eclean.
    + replace (startsWith "" "00962") with false by reflexivity.
      replace (startsWith "" "0") with false by reflexivity.
      unfold formatJordanianMobile. by rewrite Eclean.
    + destruct (startsWith (String x tl) "00962") eqn:Hintl; [by apply Hfix |].
      destruct (startsWith (String x tl) "0") eqn:Hlocal.
      * rewrite slice_1_cons. cbn in Hclean. apply andb_prop in Hclean as [_ Htl].
        apply Hfix; [| apply startsWith_app]. rewrite all_chars_app. by rewrite Htl.
      * unfold formatJordanianMobile. by rewrite Eclean, Hintl, Hlocal.
Qed.

Lemma formatJordanianMobile_normalises_witness :
  validateJordanianMobile "079 123-4567" = true
  /\ formatJordanianMobile "079 123-4567" = "00962791234567"
  /\ formatJordanianMobile "00962 79 1234567" = "00962791234567"
  /\ validateJordanianMobile (formatJordanianMobile "079 123-4567") = true.
Proof.
  destruct (formatJordanianMobile_normalises "079 123-4567") as [Hvalid _].
  destruct (Hvalid eq_refl) as (c & rest & _ & _ & _ & _ & _ & Hagain).
  split; [reflexivity |]. split; [reflexivity |]. split; [reflexivity | exact Hagain].
Defined.

Lemma validateJordanianMobile_accepts_witness :
  validateJordanianMobile "00962-79-1234567" = true
  /\ validateJordanianMobile "0612345678" = false.
Proof.
  split.
  - apply (proj2 (validateJordanianMobile_accepts "00962-79-1234567")).
    exists "7"%char, "91234567". repeat split; try reflexivity. by right.
  - destruct (validateJordanianMobile "0612345678") eqn:Hv; [| reflexivity].
    apply (proj1 (validateJordanianMobile_accepts "0612345678")) in Hv
      as (c & rest & Hc & _ & _ & [Heq | Heq]).
    + injection Heq as <- _. by vm_compute in Hc.
    + discriminate Heq.
Defined.

(** ** File names and text ([lib/utils.ts]) *)

Lemma lastIndexOf_from_absent (i found : Z) (s : string) (c : ascii) :
  all_chars (fun x => negb (bool_decide (x = c))) s = true ->
  lastIndexOf_from i found s c = found.
Proof.
  revert i found. induction s as [| x s IH]; intros i found H; [reflexivity |].
  cbn in H. apply andb_prop in H as [Hx Hs]. apply negb_true_iff, bool_decide_eq_false in Hx.
  cbn. rewrite decide_False by done. by apply IH.
Qed.

Lemma lastIndexOf_from_app (i found : Z) (a b : string) (c : ascii) :
  lastIndexOf_from i found (a +:+ b) c
  = lastIndexOf_from (i + Z.of_nat (String.length a)) (lastIndexOf_from i found a c) b c.
Proof.
  revert i found. induction a as [| x a IH]; intros i found.
  - rewrite app_nil. cbn. by rewrite Z.add_0_r.
  - rewrite app_cons. cbn [lastIndexOf_from String.length]. rewrite IH. f_equal. lia.
Qed.

(** The last dot of [base.ext], when [ext] holds none, is right after
    [base]. *)
Lemma lastIndexOf_last_dot (base ext : string) :
  no_dot ext = true ->
  lastIndexOf (base +:+ String "." ext) "." = Z.of_nat (String.length base).
Proof.
  intros Hext. unfold lastIndexOf. rewrite lastIndexOf_from_app. cbn [lastIndexOf_from].
  rewrite decide_True by done. rewrite lastIndexOf_from_absent by exact Hext. lia.
Qed.

Lemma substring_beyond (s : string) (n m : nat) :
  (String.length s <= n)%nat -> String.substring n m s = "".
Proof.
  revert n m. induction s as [| c s IH]; intros n m Hlen.
  - by destruct n, m.
  - destruct n as [| n]; [cbn in Hlen; lia |]. cbn. apply IH. cbn in Hlen. lia.
Qed.

Lemma slice_beyond (s : string) (start : Z) :
  Z.of_nat (String.length s) <= start -> slice s start = "".
Proof.
  intros Hlen. unfold slice.
  destruct (Z.ltb_spec start 0) as [Hneg | _]; [lia |].
  rewrite Z.min_r by lia. apply substring_beyond. lia.
Qed.

Lemma substring_app_tail (a b : string) :
  String.substring (String.length a) (String.length b) (a +:+ b) = b.
Proof.
  induction a as [| c a IH]; [rewrite app_nil; apply substring_0_length |].
  rewrite app_cons. cbn. exact IH.
Qed.

Lemma slice_app_tail (a b : string) :
  slice (a +:+ b) (Z.of_nat (String.length a)) = b.
Proof.
  unfold slice. rewrite string_app_length.
  destruct (Z.ltb_spec (Z.of_nat (String.length a)) 0) as [Hneg | _]; [lia |].
  rewrite Z.min_l by lia.
  replace (Z.to_nat (Z.of_nat (String.length a + String.length b)
                     - Z.of_nat (String.length a))) with (String.length b) by lia.
  rewrite Nat2Z.id. apply substring_app_tail.
Qed.

Section file_name.

(** A file name of fewer than 2^32 characters. *)
Context (filename : string).
Hypothesis Hlen : Z.of_nat (String.length filename) < 2 ^ 32.

Lemma getFileExtension_no_dot : no_dot filename = true -> getFileExtension filename = "".
Proof.
  intros Hnone. unfold getFileExtension, toUint32, lastIndexOf.
  rewrite lastIndexOf_from_absent by exact Hnone.
  apply slice_beyond. change ((-1 - 1) mod 2 ^ 32 + 2) with (2 ^ 32). lia.
Qed.

Lemma getFileExtension_last_dot (base ext : string) :
  filename = base +:+ String "." ext -> no_dot ext = true ->
  getFileExtension filename = if decide (base = "") then "" else ext.
Proof.
  intros Hname Hext. unfold getFileExtension, toUint32. rewrite Hname in Hlen |- *.
  rewrite (lastIndexOf_last_dot base ext Hext).
  rewrite string_app_length in Hlen. cbn [String.length] in Hlen.
  destruct base as [| c base].
  - rewrite decide_True by done. apply slice_beyond.
    change ((Z.of_nat (String.length "") - 1) mod 2 ^ 32 + 2) with (2 ^ 32 + 1).
    rewrite app_nil. cbn [String.length]. lia.
  - rewrite decide_False by done.
    rewrite Z.mod_small by (cbn [String.length] in *; lia).
    replace (Z.of_nat (String.length (String c base)) - 1 + 2)
      with (Z.of_nat (String.length (String c base +:+ ".")))
      by (rewrite string_app_length; cbn [String.length]; lia).
    replace (String c base +:+ String "." ext) with ((String c base +:+ ".") +:+ ext)
      by (by rewrite string_app_assoc).
    apply slice_app_tail.
Qed.

End file_name.

(** A string with a dot splits at its last dot. *)
Lemma split_at_last_dot (s : string) :
  no_dot s = false -> exists base ext, s = base +:+ String "." ext /\ no_dot ext = true.
Proof.
  induction s as [| c s IH]; [discriminate |]. unfold no_dot. cbn [all_chars]. intros Hdot.
  destruct (no_dot s) eqn:Htail.
  - fold (no_dot s) in Hdot. rewrite Htail, andb_true_r in Hdot.
    apply negb_false_iff, bool_decide_eq_true in Hdot as ->. by exists "", s.
  - destruct (IH eq_refl) as (base & ext & -> & Hext). exists (String c base), ext.
    by rewrite app_cons.
Qed.

(** X16. On a file name shorter than 2^32 characters, [getFileExtension]
    returns what follows the last dot, provided the dot is not the first
    character: a name without a dot and a name whose only dot comes first
    (a hidden file such as [.bashrc]) have the empty extension, and so has a
    name that ends in a dot. *)
Theorem getFileExtension_is_after_the_last_dot (filename : string) :
  Z.of_nat (String.length filename) < 2 ^ 32 ->
  (no_dot filename = true -> getFileExtension filename = "")
  /\ (forall base ext,
        filename = base +:+ String "." ext -> no_dot ext = true ->
        getFileExtension filename = if decide (base = "") then "" else ext)
  /\ no_dot (getFileExtension filename) = true.
Proof.
  intros Hlen. split; [by apply getFileExtension_no_dot |].
  split; [intros base ext; by apply getFileExtension_last_dot |].
  destruct (no_dot filename) eqn:Hdot.
  - by rewrite getFileExtension_no_dot.
  - destruct (split_at_last_dot filename Hdot) as (base & ext & Hname & Hext).
    rewrite (getFileExtension_last_dot filename Hlen base ext Hname Hext).
    by destruct (decide (base = "")).
Qed.

Lemma getFileExtension_is_after_the_last_dot_witness :
  getFileExtension "receipt.2025.PNG" = "PNG" /\ getFileExtension ".bashrc" = "".
Proof.
  split.
  - destruct (getFileExtension_is_after_the_last_dot "receipt.2025.PNG" ltac:(by vm_compute))
      as (_ & Hext & _).
    apply (Hext "receipt.2025" "PNG"); reflexivity.
  - destruct (getFileExtension_is_after_the_last_dot ".bashrc" ltac:(by vm_compute))
      as (_ & Hext & _).
    apply (Hext "" "bashrc"); reflexivity.
Defined.

Lemma substring_0_shorter (s : string) (n : nat) :
  (n <= String.length s)%nat -> String.length (String.substring 0 n s) = n.
Proof. intros Hn. apply substring_length. lia. Qed.

(** X17. [truncateText] leaves a text of at most [maxLength] characters as it
    is. A longer text, for a [maxLength] that is not negative, becomes its
    first [maxLength] characters followed by three dots: the result has
    [maxLength + 3] characters, three more than the limit. *)
Theorem truncateText_adds_three_dots (text : string) (maxLength : Z) :
  0 <= maxLength ->
  (Z.of_nat (String.length text) <= maxLength -> truncateText text maxLength = text)
  /\ (maxLength < Z.of_nat (String.length text) ->
      truncateText text maxLength
      = String.substring 0 (Z.to_nat maxLength) text +:+ "..."
      /\ Z.of_nat (String.length (truncateText text maxLength)) = maxLength + 3).
Proof.
  intros Hmax. unfold truncateText. split.
  - intros Hfits. by rewrite (proj2 (Z.leb_le _ _) Hfits).
  - intros Hlong. rewrite (proj2 (Z.leb_gt _ _) Hlong).
    assert (slice2 text 0 maxLength = String.substring 0 (Z.to_nat maxLength) text) as ->.
    { unfold slice2. replace (0 <? 0) with false by reflexivity.
      rewrite (proj2 (Z.ltb_ge _ _) Hmax). rewrite (Z.min_l 0) by lia.
      rewrite Z.min_l by lia. rewrite Z.sub_0_r, Z.max_l by lia. reflexivity. }
    split; [reflexivity |].
    rewrite string_app_length, substring_0_shorter by lia. cbn [String.length]. lia.
Qed.

Lemma truncateText_adds_three_dots_witness :
  truncateText "Transfer to the branch in Irbid" 8 = "Transfer..."
  /\ truncateText "Transfer" 8 = "Transfer".
Proof.
  destruct (truncateText_adds_three_dots "Transfer to the branch in Irbid" 8 ltac:(lia))
    as [_ Hlong].
  destruct (truncateText_adds_three_dots "Transfer" 8 ltac:(lia)) as [Hfits _].
  split.
  - destruct Hlong as [-> _]; [by vm_compute | reflexivity].
  - apply Hfits. by vm_compute.
Defined.

Lemma empty_extension_is_no_image : toLowerCase "" ∉ imageExtensions.
Proof. intros H. apply (bool_decide_pack _) in H. by vm_compute in H. Qed.

(** X20. On a file name shorter than 2^32 characters, [isImageFile] holds
    exactly when the name is a non-empty base, a dot and an extension without
    dots that is, whatever its case, one of [jpg], [jpeg], [png], [gif],
    [webp] and [svg]. A name that is only a dot and an extension, such as
    [.png], is not an image file. *)
Theorem isImageFile_looks_at_the_lowered_extension (filename : string) :
  Z.of_nat (String.length filename) < 2 ^ 32 ->
  (isImageFile filename = true
   <-> exists base ext,
         base <> "" /\ filename = base +:+ String "." ext /\ no_dot ext = true
         /\ toLowerCase ext ∈ imageExtensions)
  /\ (forall ext, filename = String "." ext -> no_dot ext = true ->
        isImageFile filename = false).
Proof.
  intros Hlen. unfold isImageFile. split.
  - rewrite bool_decide_eq_true. split.
    + intros Himg. destruct (no_dot filename) eqn:Hdot.
      { rewrite getFileExtension_no_dot in Himg by done.
        by apply empty_extension_is_no_image in Himg. }
      destruct (split_at_last_dot filename Hdot) as (base & ext & Hname & Hext).
      rewrite (getFileExtension_last_dot filename Hlen base ext Hname Hext) in Himg.
      destruct (decide (base = "")) as [-> | Hbase];
        [by apply empty_extension_is_no_image in Himg |].
      by exists base, ext.
    + intros (base & ext & Hbase & Hname & Hext & Himg).
      rewrite (getFileExtension_last_dot filename Hlen base ext Hname Hext).
      by rewrite decide_False.
  - intros ext Hname Hext. apply bool_decide_eq_false.
    rewrite (getFileExtension_last_dot filename Hlen "" ext Hname Hext).
    rewrite decide_True by done. apply empty_extension_is_no_image.
Qed.

Lemma isImageFile_looks_at_the_lowered_extension_witness :
  isImageFile "receipt.2025.PNG" = true /\ isImageFile ".png" = false
  /\ isImageFile "receipt.pdf" = false.
Proof.
  destruct (isImageFile_looks_at_the_lowered_extension "receipt.2025.PNG"
              ltac:(by vm_compute)) as [Hiff _].
  split; [| split; reflexivity].
  apply (proj2 Hiff). exists "receipt.2025", "PNG".
  split; [discriminate |]. split; [reflexivity |]. split; [reflexivity |].
  change (toLowerCase "PNG") with "png". unfold imageExtensions.
  rewrite !elem_of_cons. right. right. by left.
Defined.

(** ** The placeholder identifier of [lib/utils.ts] *)

(** X18. The placeholder [generateOrderId] of [lib/utils.ts] builds the same
    [T], year and month as the order service and always the sequence [0001]:
    it is the identifier that the service allocates for the first order of
    the month, and differs from the service's identifier as soon as the
    month's counter stands at 1 or more. *)
Theorem placeholder_id_is_the_first_of_the_month (env : Env) (w : World) :
  txError env = None ->
  (counters w !! counterKey env = None ->
   (generateOrderId env w).1 = Ok (Utils.generateOrderId env None))
  /\ (1 <= counterValue w (counterKey env) ->
      (generateOrderId env w).1 <> Ok (Utils.generateOrderId env None))
  /\ Utils.generateOrderId env None = formatOrderId env 1.
Proof.
  intros Htx.
  assert (Utils.generateOrderId env None = formatOrderId env 1) as Hfirst by reflexivity.
  rewrite Hfirst, (generateOrderId_commits env w Htx). cbn [fst].
  split; [| split; [| reflexivity]].
  - intros Hnone. unfold counterValue. by rewrite Hnone.
  - intros Hcount Hsame.
    assert (formatOrderId env (counterValue w (counterKey env) + 1) = formatOrderId env 1)
      as Heq by congruence.
    rewrite !formatOrderId_monthKey in Heq.
    apply (inj (String.app "T")), (inj (String.app (monthKey env))) in Heq.
    apply sequence_inj in Heq; lia.
Qed.

Lemma placeholder_id_is_the_first_of_the_month_witness :
  let env := env_at (utc_instant 2025 6 30 22 0) in
  (generateOrderId env emptyWorld).1 = Ok (Utils.generateOrderId env None)
  /\ Utils.generateOrderId env None = "T25070001".
Proof.
  intros env.
  destruct (placeholder_id_is_the_first_of_the_month env emptyWorld eq_refl)
    as (Hfirst & _ & _).
  split; [by apply Hfirst | reflexivity].
Defined.

Lemma updates_keep_the_set_of_orders_witness :
  let w := run sample_run emptyWorld in
  dom (orders (updateOrderStatus (env_at 0) "doc0" OrderStatus.completed (Some "late") w).2)
  = dom (orders w)
  /\ (updateOrder (env_at 0) "nowhere"
        (Updates.set_status OrderStatus.completed Updates.empty) w).2 = w.
Proof.
  intros w.
  destruct (updates_keep_the_set_of_orders (env_at 0) "doc0"
              (Updates.set_status OrderStatus.completed Updates.empty)
              OrderStatus.completed (Some "late") w) as [_ (Hdom & _)].
  destruct (updates_keep_the_set_of_orders (env_at 0) "nowhere"
              (Updates.set_status OrderStatus.completed Updates.empty)
              OrderStatus.completed None w) as [(_ & _ & _ & Hmissing) _].
  split; [exact Hdom |]. apply Hmissing. vm_compute. reflexivity.
Defined.

(** ** Store failures *)

(** X19. The reads never write and never throw: [getOrderByOrderId],
    [getOrders], [getOrdersByExchange] and [getPendingOrders] return a
    response and leave the store as it was. When their [getDocs] throws, and
    likewise when the [deleteDoc] of [deleteOrder] or the [updateDoc] of
    [updateOrder] throws, the response is a failure that carries the error
    and the message of the function, and nothing is written. *)
Theorem store_failures_are_reported (qe : QueryEnv) (w : World) :
  (forall oid, exists resp, getOrderByOrderId qe oid w = (Ok resp, w))
  /\ (forall filters, exists resp, getOrders qe filters w = (Ok resp, w))
  /\ (forall ex filters, exists resp, getOrdersByExchange qe ex filters w = (Ok resp, w))
  /\ (exists resp, getPendingOrders qe w = (Ok resp, w))
  /\ (forall e oid, getDocsError qe = Some e ->
        getOrderByOrderId qe oid w
        = (Ok {| success := false; data := None; error := Some e;
                 message := Some "Failed to fetch order by order ID" |}, w))
  /\ (forall e filters, getDocsError qe = Some e ->
        getOrders qe filters w
        = (Ok {| success := false; data := None; error := Some e;
                 message := Some "Failed to fetch orders" |}, w))
  /\ (forall e docId, deleteDocError qe = Some e ->
        deleteOrder qe docId w
        = (Ok {| success := false; data := None; error := Some e;
                 message := Some "Failed to delete order" |}, w))
  /\ (forall env e docId u, updateDocError env = Some e ->
        updateOrder env docId u w
        = (Ok {| success := false; data := None; error := Some e;
                 message := Some "Failed to update order" |}, w)).
Proof.
  assert (forall filters, exists resp, getOrders qe filters w = (Ok resp, w)) as Hlist.
  { intros filters. unfold getOrders, try_catch, mbind, M_bind, getDocs.
    destruct (getDocsError qe); eauto. }
  split; [| split; [exact Hlist |]; split; [| split; [apply Hlist |]]].
  - intros oid. unfold getOrderByOrderId, try_catch, mbind, M_bind, getDocs.
    destruct (getDocsError qe); [eauto |].
    destruct (runQuery _ (orders w)); eauto.
  - intros ex filters. apply Hlist.
  - split; [| split; [| split]].
    + intros e oid He. unfold getOrderByOrderId, try_catch, mbind, M_bind, getDocs.
      by rewrite He.
    + intros e filters He. unfold getOrders, try_catch, mbind, M_bind, getDocs.
      by rewrite He.
    + intros e docId He. unfold deleteOrder, try_catch, mbind, M_bind, deleteDoc.
      by rewrite He.
    + intros env e docId u He. unfold updateOrder, try_catch, mbind, M_bind, updateDoc.
      by rewrite He.
Qed.

Lemma store_failures_are_reported_witness :
  let qe := {| deleteDocError := Some "permission-denied";
               getDocsError := Some "unavailable" |} in
  let w := run sample_run emptyWorld in
  getOrders qe None w
  = (Ok {| success := false; data := None; error := Some "unavailable";
           message := Some "Failed to fetch orders" |}, w)
  /\ deleteOrder qe "doc0" w
     = (Ok {| success := false; data := None; error := Some "permission-denied";
              message := Some "Failed to delete order" |}, w).
Proof.
  intros qe w.
  destruct (store_failures_are_reported qe w) as (_ & _ & _ & _ & _ & Hlist & Hdel & _).
  split; [by apply Hlist | by apply Hdel].
Defined.
